(** * daily-code: the fractal-tree drawer and the pattern-grid renderer

    A shallow embedding of the two scripts of the repository,

    - [python_demo_823d3b.py]: [draw_fractal_tree], a recursive procedure that
      drives a turtle-graphics cursor, and [create_fractal_art];
    - [python_tutorial_262ddc.py]: [get_pattern_value], [map_value_to_color],
      [draw_grid_pattern] and the frame loop under [__main__];

    followed by the properties of the specification, each one stated over
    these definitions.

    Numbers.  Python's [int] is [Z].  The cursor of the first script lives in
    the real plane ([R], with the real [cos] and [sin]).  The second script
    is embedded twice.  [PatternGrid] idealises Python's [float] as the exact
    rationals ([Q]): no rounding, no overflow, neither [inf] nor [nan]; what
    is proved there is stated on ranges where the script, on floats, returns
    too.  [Binary64] gives the floats themselves (round to nearest, ties to
    even, overflow to an infinity, [nan]) and [PatternGridFloat] the colour
    mapper on them, with the exceptions of [int()]. *)

From Stdlib Require Import ZArith QArith Qround Qminmax Qabs Qpower Reals Zfloor Psatz Lia.
From Stdlib Require Import List String Ascii DecimalString DecimalPos Bool.
Import ListNotations.

(* ===================================================================== *)
(** * The turtle cursor *)
(* ===================================================================== *)

(** The object [t] handed to [draw_fractal_tree] is a [turtle.Turtle] of
    Python's standard library, which is not part of the repository.  It is
    modelled here as the ideal cursor of the specification's data model: a
    position in the real plane, an orientation in degrees, the pen, and the
    record of the method calls received so far.  The methods are those the
    script calls, in the library's default mode (angles in degrees, counter
    clockwise, heading reported in the half-open interval from 0 to 360). *)
Module Turtle.

Local Open Scope R_scope.

(** A method call received by the turtle. *)
Inductive Call : Type :=
| Forward (distance : R)
| Left (a : R)
| Right (a : R)
| Position
| Heading
| Penup
| Pendown
| Goto (p : R * R)
| Setheading (to_angle : R).

Record Turtle : Type := mkTurtle {
  pos : R * R;          (* where the cursor is *)
  angle : R;            (* its orientation, in degrees, up to full turns *)
  isdown : bool;        (* whether the pen draws *)
  calls : list Call     (* the calls received, the most recent first *)
}.

(** [x mod 360] on the reals, as Python's [%] computes it for a positive
    modulus: the result lies in the interval from 0 (included) to 360. *)
Definition Rmod360 (x : R) : R := x - 360 * IZR (Zfloor (x / 360)).

Definition radians (deg : R) : R := deg * PI / 180.

(** What [t.heading()] and [t.position()] report. *)
Definition heading_of (t : Turtle) : R := Rmod360 (angle t).
Definition position_of (t : Turtle) : R * R := pos t.

Definition received (c : Call) (t : Turtle) : list Call := c :: calls t.

Definition forward (distance : R) (t : Turtle) : Turtle :=
  {| pos := (fst (pos t) + distance * cos (radians (heading_of t)),
             snd (pos t) + distance * sin (radians (heading_of t)));
     angle := angle t;
     isdown := isdown t;
     calls := received (Forward distance) t |}.

Definition left (a : R) (t : Turtle) : Turtle :=
  {| pos := pos t; angle := angle t + a; isdown := isdown t;
     calls := received (Left a) t |}.

Definition right (a : R) (t : Turtle) : Turtle :=
  {| pos := pos t; angle := angle t - a; isdown := isdown t;
     calls := received (Right a) t |}.

Definition position (t : Turtle) : (R * R) * Turtle :=
  (position_of t,
   {| pos := pos t; angle := angle t; isdown := isdown t;
      calls := received Position t |}).

Definition heading (t : Turtle) : R * Turtle :=
  (heading_of t,
   {| pos := pos t; angle := angle t; isdown := isdown t;
      calls := received Heading t |}).

Definition penup (t : Turtle) : Turtle :=
  {| pos := pos t; angle := angle t; isdown := false;
     calls := received Penup t |}.

Definition pendown (t : Turtle) : Turtle :=
  {| pos := pos t; angle := angle t; isdown := true;
     calls := received Pendown t |}.

Definition goto (p : R * R) (t : Turtle) : Turtle :=
  {| pos := p; angle := angle t; isdown := isdown t;
     calls := received (Goto p) t |}.

Definition setheading (to_angle : R) (t : Turtle) : Turtle :=
  {| pos := pos t; angle := to_angle; isdown := isdown t;
     calls := received (Setheading to_angle) t |}.

(** [turtle.Turtle()]: at the origin, facing east, pen down. *)
Definition new : Turtle :=
  {| pos := (0, 0); angle := 0; isdown := true; calls := [] |}.

Definition is_forward (c : Call) : bool :=
  match c with Forward _ => true | _ => false end.

(** How many [forward] calls the turtle has received. *)
Definition forward_calls (t : Turtle) : nat :=
  List.length (filter is_forward (calls t)).

(** ** Reading the record of calls *)

Definition is_position (c : Call) : bool :=
  match c with Position => true | _ => false end.
Definition is_heading (c : Call) : bool :=
  match c with Heading => true | _ => false end.
Definition is_left (c : Call) : bool :=
  match c with Left _ => true | _ => false end.
Definition is_right (c : Call) : bool :=
  match c with Right _ => true | _ => false end.
Definition is_penup (c : Call) : bool :=
  match c with Penup => true | _ => false end.
Definition is_pendown (c : Call) : bool :=
  match c with Pendown => true | _ => false end.
Definition is_goto (c : Call) : bool :=
  match c with Goto _ => true | _ => false end.
Definition is_setheading (c : Call) : bool :=
  match c with Setheading _ => true | _ => false end.

(** How many calls of a kind a record holds. *)
Definition count (kind : Call -> bool) (log : list Call) : nat :=
  List.length (filter kind log).

(** The distances of the [forward] calls of a record, in its order. *)
Fixpoint forward_distances (log : list Call) : list R :=
  match log with
  | [] => []
  | Forward d :: log' => d :: forward_distances log'
  | _ :: log' => forward_distances log'
  end.

Definition Rsum (xs : list R) : R := fold_right Rplus 0 xs.

(** The pen once the calls of [log] (the most recent first) have been made,
    starting with the pen [pen0]. *)
Fixpoint pen_after (pen0 : bool) (log : list Call) : bool :=
  match log with
  | [] => pen0
  | Penup :: _ => false
  | Pendown :: _ => true
  | _ :: log' => pen_after pen0 log'
  end.

(** The moves of [log] that leave a line: the [forward] and [goto] calls
    made while the pen is down. *)
Fixpoint drawing_moves (pen0 : bool) (log : list Call) : list Call :=
  match log with
  | [] => []
  | c :: log' =>
    if ((is_forward c || is_goto c) && pen_after pen0 log')%bool
    then c :: drawing_moves pen0 log'
    else drawing_moves pen0 log'
  end.

End Turtle.

(* ===================================================================== *)
(** * python_demo_823d3b.py *)
(* ===================================================================== *)

Module FractalTree.

Import Turtle.
Local Open Scope R_scope.

Definition BRANCH_ANGLE : R := 25.
Definition BRANCH_SCALE : R := 0.7.
Definition INITIAL_LENGTH : R := 100.
Definition RECURSION_DEPTH : Z := 9.

(** A procedure acting on the turtle: it may not return ([None]: the fuel of
    the model ran out, which stands for a recursion that does not reach its
    base case), or it returns a value and leaves the turtle in a new state. *)
Definition Proc (A : Type) : Type := Turtle -> option (A * Turtle).

Definition ret {A : Type} (a : A) : Proc A := fun t => Some (a, t).

Definition bind {A B : Type} (c : Proc A) (k : A -> Proc B) : Proc B :=
  fun t => match c t with
           | Some (a, t') => k a t'
           | None => None
           end.

(** A method that returns nothing, and one that returns a value. *)
Definition method (f : Turtle -> Turtle) : Proc unit := fun t => Some (tt, f t).
Definition query {A : Type} (f : Turtle -> A * Turtle) : Proc A :=
  fun t => Some (f t).

Definition out_of_fuel {A : Type} : Proc A := fun _ => None.

Declare Scope proc_scope.
Delimit Scope proc_scope with proc.
Notation "x <- c ;; k" := (bind c (fun x => k))
  (at level 61, c at next level, right associativity) : proc_scope.
Notation "c ;; k" := (bind c (fun _ => k))
  (at level 61, right associativity) : proc_scope.

(** [draw_fractal_tree(t, length, depth)].  [depth] is a Python [int], so it
    may be negative; the recursion then never meets [depth == 0].  [fuel]
    bounds the nesting of calls in the model. *)
Fixpoint draw_fractal_tree (fuel : nat) (length : R) (depth : Z) : Proc unit :=
  match fuel with
  | O => out_of_fuel
  | S fuel' =>
    if (depth =? 0)%Z then ret tt
    else
      (method (forward length) ;;
       current_pos <- query position ;;
       current_heading <- query heading ;;
       method (left BRANCH_ANGLE) ;;
       draw_fractal_tree fuel' (length * BRANCH_SCALE) (depth - 1) ;;
       method penup ;;
       method (goto current_pos) ;;
       method (setheading current_heading) ;;
       method pendown ;;
       method (right BRANCH_ANGLE) ;;
       draw_fractal_tree fuel' (length * BRANCH_SCALE) (depth - 1) ;;
       method penup ;;
       method (goto current_pos) ;;
       method (setheading current_heading) ;;
       method pendown)%proc
  end.

(** The cursor a call leaves behind, given the cursor [t2] its second
    recursive call left: lines 86 to 89, with the pose saved at lines 58
    and 59 after the move of line 54. *)
Definition restored (length : R) (t t2 : Turtle) : Turtle :=
  pendown (setheading (heading_of (forward length t))
             (goto (position_of (forward length t)) (penup t2))).

(** The cursor handed to the first recursive call (lines 54 to 63). *)
Definition before_left_branch (length : R) (t : Turtle) : Turtle :=
  left BRANCH_ANGLE (snd (heading (snd (position (forward length t))))).

(** The cursor handed to the second recursive call (lines 72 to 79). *)
Definition before_right_branch (length : R) (t t1 : Turtle) : Turtle :=
  right BRANCH_ANGLE
    (pendown (setheading (heading_of (forward length t))
                (goto (position_of (forward length t)) (penup t1)))).

(** The turtle of [create_fractal_art] when the drawing starts: lifted,
    moved to the bottom centre, turned upwards, pen put down.  (The screen,
    the speed and the colour are not part of the cursor.) *)
Definition artist : Turtle :=
  pendown (left 90 (goto (0, -250) (penup new))).

(** The root call of [create_fractal_art]. *)
Definition create_fractal_art (fuel : nat) : option (unit * Turtle) :=
  draw_fractal_tree fuel INITIAL_LENGTH RECURSION_DEPTH artist.

(** The calls one activation adds to the record, the most recent first,
    given the calls [l1] and [l2] of its two recursive activations and the
    pose [(p, h)] it saved. *)
Definition activation (length : R) (p : R * R) (h : R) (l1 l2 : list Call)
    : list Call :=
  ([Pendown; Setheading h; Goto p; Penup] ++ l2
   ++ [Right BRANCH_ANGLE; Pendown; Setheading h; Goto p; Penup] ++ l1
   ++ [Left BRANCH_ANGLE; Heading; Position; Forward length])%list.

(** What the record [new] of a call whose calls nest [n] deep shows about
    the pen: where it ends, that no [goto] leaves a line, and which
    [forward] calls do. *)
Definition pen_facts (n : nat) (new : list Call) : Prop :=
  (forall pen0, pen_after pen0 new = match n with O => pen0 | S _ => true end) /\
  (forall pen0, count is_goto (drawing_moves pen0 new) = O) /\
  drawing_moves true new = filter is_forward new /\
  (count is_forward (drawing_moves false new) + n = count is_forward new)%nat.

End FractalTree.

(* ===================================================================== *)
(** * python_tutorial_262ddc.py *)
(* ===================================================================== *)

Module PatternGrid.

Local Open Scope Q_scope.
Local Open Scope string_scope.

(** ** Exceptions and results *)

Inductive exn : Type :=
| NameError (name : string)
| AttributeError (attr : string)
| OverflowError
| ValueError.

Inductive result (A : Type) : Type :=
| Ok (a : A)
| Raise (e : exn).
Arguments Ok {A} a.
Arguments Raise {A} e.

Definition rbind {A B : Type} (r : result A) (k : A -> result B) : result B :=
  match r with
  | Ok a => k a
  | Raise e => Raise e
  end.

Declare Scope result_scope.
Delimit Scope result_scope with result.
Notation "x <- r ;; k" := (rbind r (fun x => k))
  (at level 61, r at next level, right associativity) : result_scope.

(** ** Names *)

(** A module offering [sin] and [cos] on floats.  The script never binds
    one, so it is a parameter wherever a namespace carries it. *)
Record MathModule : Type := {
  math_sin : Q -> Q;
  math_cos : Q -> Q
}.

(** What a name is bound to: a module with [sin] and [cos], or anything
    else (a class, a function, a constant). *)
Inductive PyObj : Type :=
| MathObj (m : MathModule)
| OtherObj.

Definition Namespace : Type := list (string * PyObj).

Fixpoint lookup (name : string) (ns : Namespace) : option PyObj :=
  match ns with
  | [] => None
  | (n, o) :: ns' => if String.eqb n name then Some o else lookup name ns'
  end.

(** The names bound at module level once the script's top-level statements
    have run: the two imports (lines 13 and 14), the configuration constants
    and the three functions.  No statement binds [math]. *)
Definition module_globals : Namespace :=
  [ ("Image", OtherObj); ("ImageDraw", OtherObj); ("random", OtherObj);
    ("GRID_SIZE", OtherObj); ("CELL_SIZE", OtherObj);
    ("IMAGE_WIDTH", OtherObj); ("IMAGE_HEIGHT", OtherObj);
    ("BACKGROUND_COLOR", OtherObj); ("PATTERN_COLOR_RANGE", OtherObj);
    ("get_pattern_value", OtherObj); ("map_value_to_color", OtherObj);
    ("draw_grid_pattern", OtherObj) ].

(** The built-in names the script uses; Python's built-ins hold no [math]. *)
Definition builtins : Namespace :=
  [ ("abs", OtherObj); ("int", OtherObj); ("max", OtherObj);
    ("min", OtherObj); ("range", OtherObj); ("print", OtherObj);
    ("str", OtherObj) ].

(** Reading a name that is not local to the function: the module's
    globals, then the built-ins, else [NameError]. *)
Definition load_global (name : string) (globals : Namespace) : result PyObj :=
  match lookup name globals with
  | Some o => Ok o
  | None =>
    match lookup name builtins with
    | Some o => Ok o
    | None => Raise (NameError name)
    end
  end.

Definition getattr_sin (o : PyObj) : result (Q -> Q) :=
  match o with
  | MathObj m => Ok (math_sin m)
  | OtherObj => Raise (AttributeError "sin")
  end.

Definition getattr_cos (o : PyObj) : result (Q -> Q) :=
  match o with
  | MathObj m => Ok (math_cos m)
  | OtherObj => Raise (AttributeError "cos")
  end.

(** The globals the module would have, had it imported a module [m] under
    the name [math]. *)
Definition with_math (m : MathModule) (globals : Namespace) : Namespace :=
  ("math", MathObj m) :: globals.

(** A stand-in for such a module: two functions that stay between -1 and 1,
    as every implementation of the sine and the cosine does.  It only shows
    that a module can meet what the lemmas on [with_math] ask of one. *)
Definition clip (x : Q) : Q := Qmax (-1) (Qmin 1 x).
Definition clipped_math : MathModule :=
  {| math_sin := clip; math_cos := fun x => clip (1 - x) |}.

(** ** Configuration *)

Definition Color : Type := (Z * Z * Z)%type.

Definition GRID_SIZE : Z := 16.
Definition CELL_SIZE : Z := 30.
Definition IMAGE_WIDTH : Z := GRID_SIZE * CELL_SIZE.
Definition IMAGE_HEIGHT : Z := GRID_SIZE * CELL_SIZE.
Definition BACKGROUND_COLOR : Color := (255, 255, 255)%Z.
Definition PATTERN_COLOR_RANGE : Color * Color :=
  ((0, 0, 0)%Z, (100, 100, 255)%Z).

(** Indexing a colour tuple: [c[0]], [c[1]], [c[2]]. *)
Definition ch0 (c : Color) : Z := fst (fst c).
Definition ch1 (c : Color) : Z := snd (fst c).
Definition ch2 (c : Color) : Z := snd c.

(** ** Helper functions *)

(** [get_pattern_value(row, col, time_factor)], run in a module whose
    globals are [globals].  The arithmetic of lines 36 to 45 is exact here;
    on floats an [int] beyond the range of floats makes line 36 raise
    [OverflowError] before [math] is looked up. *)
Definition get_pattern_value (globals : Namespace)
    (row col : Z) (time_factor : Q) : result Q :=
  let base_value := inject_Z (row + col) * 0.1 in
  let pattern_noise :=
    (inject_Z (Z.abs (row - col)) * 0.2) +
    (inject_Z row * 0.3) +
    (inject_Z col * 0.4) +
    (time_factor * 0.5) in
  (math <- load_global "math" globals ;;
   sin <- getattr_sin math ;;
   let sine_wave_1 := sin (base_value + pattern_noise) in
   math <- load_global "math" globals ;;
   cos <- getattr_cos math ;;
   let sine_wave_2 := cos (pattern_noise * 1.5) in
   let combined_value := (sine_wave_1 * 0.5) + (sine_wave_2 * 0.5) in
   let scaled_value := (combined_value + 1) / 2 in
   Ok scaled_value)%result.

(** [int(x)] on a finite float, taken as the rational it denotes: the
    integer part, rounding towards zero.  (The exceptions of [int()] on an
    infinity and on [nan] are those of [PatternGridFloat.int].) *)
Definition int (x : Q) : Z := Z.quot (Qnum x) (Zpos (Qden x)).

(** The three channels as interpolated, before the clamp (lines 71 to 73),
    with exact products; [PatternGridFloat.channel] rounds them as floats
    do. *)
Definition interpolate (value : Q) : Color :=
  let start_color := fst PATTERN_COLOR_RANGE in
  let end_color := snd PATTERN_COLOR_RANGE in
  let r := int (inject_Z (ch0 start_color)
                + inject_Z (ch0 end_color - ch0 start_color) * value) in
  let g := int (inject_Z (ch1 start_color)
                + inject_Z (ch1 end_color - ch1 start_color) * value) in
  let b := int (inject_Z (ch2 start_color)
                + inject_Z (ch2 end_color - ch2 start_color) * value) in
  (r, g, b).

(** [max(0, min(255, c))]. *)
Definition clamp (c : Z) : Z := Z.max 0 (Z.min 255 c).

(** [map_value_to_color(value)]. *)
Definition map_value_to_color (value : Q) : Color :=
  let '(r, g, b) := interpolate value in
  let r := clamp r in
  let g := clamp g in
  let b := clamp b in
  (r, g, b).

(** ** The raster *)

(** A Pillow image as far as the script touches it: its size, the colour it
    was created with, and the rectangles painted on it, the latest first. *)
Record Image : Type := {
  size : Z * Z;
  fill : Color;
  rectangles : list ((Z * Z * Z * Z) * Color)
}.

Definition Image_new (sz : Z * Z) (color : Color) : Image :=
  {| size := sz; fill := color; rectangles := [] |}.

Definition rectangle (box : Z * Z * Z * Z) (color : Color) (im : Image) : Image :=
  {| size := size im; fill := fill im;
     rectangles := (box, color) :: rectangles im |}.

(** [range(n)]. *)
Definition range (n : Z) : list Z := map Z.of_nat (seq 0 (Z.to_nat n)).

(** A [for] loop whose body may raise: the first exception ends it. *)
Fixpoint for_each {A S : Type} (xs : list A) (body : A -> S -> result S)
    (s : S) : result S :=
  match xs with
  | [] => Ok s
  | x :: xs' =>
    match body x s with
    | Ok s' => for_each xs' body s'
    | Raise e => Raise e
    end
  end.

(** [draw_grid_pattern(image, time_factor)]. *)
Definition draw_grid_pattern (globals : Namespace) (image : Image)
    (time_factor : Q) : result Image :=
  for_each (range GRID_SIZE) (fun row image =>
    for_each (range GRID_SIZE) (fun col image =>
      (pattern_val <- get_pattern_value globals row col time_factor ;;
       let cell_color := map_value_to_color pattern_val in
       let x1 := (col * CELL_SIZE)%Z in
       let y1 := (row * CELL_SIZE)%Z in
       let x2 := (x1 + CELL_SIZE)%Z in
       let y2 := (y1 + CELL_SIZE)%Z in
       Ok (rectangle (x1, y1, x2, y2) cell_color image))%result)
      image)
    image.

(** ** The frame loop *)

(** [str(n)] for an integer. *)
Definition str (n : Z) : string := NilZero.string_of_int (Z.to_int n).

Fixpoint zeros (n : nat) : string :=
  match n with
  | O => ""
  | S n' => String "0" (zeros n')
  end.

(** [s.zfill(width)]: zeros on the left up to [width], after a sign. *)
Definition zfill (width : nat) (s : string) : string :=
  let pad := (width - String.length s)%nat in
  match s with
  | String c s' =>
    if (Ascii.eqb c "+" || Ascii.eqb c "-")%bool
    then String c (zeros pad ++ s')
    else zeros pad ++ s
  | EmptyString => zeros pad
  end.

(** What the script leaves behind: the files saved and the strings handed
    to [print], one entry for each call, both in the order they were
    produced.  ([print] ends each string with a newline; a string that holds
    newlines itself makes more than one line, see [lines_printed].) *)
Record World : Type := {
  files : list (string * Image);
  stdout : list string
}.

Definition empty_world : World := {| files := []; stdout := [] |}.

Definition save (image : Image) (filename : string) (w : World) : World :=
  {| files := files w ++ [(filename, image)]; stdout := stdout w |}.

Definition print (line : string) (w : World) : World :=
  {| files := files w; stdout := stdout w ++ [line] |}.

Definition num_frames : Z := 60.
Definition output_filename_base : string := "pattern_grid_".

(** The time factor of a frame (line 130; [/] is true division). *)
Definition time_factor_of (frame_num : Z) : Q :=
  inject_Z frame_num / inject_Z num_frames.

(** The file name of a frame (line 137). *)
Definition output_filename_of (frame_num : Z) : string :=
  output_filename_base ++ zfill 3 (str (frame_num + 1)) ++ ".png".

(** One iteration of the loop at lines 122 to 141.  An exception leaves the
    world as it was when it was raised. *)
Definition frame (globals : Namespace) (frame_num : Z) (w : World)
    : result unit * World :=
  let image := Image_new (IMAGE_WIDTH, IMAGE_HEIGHT) BACKGROUND_COLOR in
  let current_time_factor := time_factor_of frame_num in
  match draw_grid_pattern globals image current_time_factor with
  | Raise e => (Raise e, w)
  | Ok image =>
    let output_filename := output_filename_of frame_num in
    let w := save image output_filename w in
    let w := print ("Saved " ++ output_filename) w in
    (Ok tt, w)
  end.

Fixpoint frames (globals : Namespace) (frame_nums : list Z) (w : World)
    : result unit * World :=
  match frame_nums with
  | [] => (Ok tt, w)
  | frame_num :: rest =>
    match frame globals frame_num w with
    | (Ok _, w') => frames globals rest w'
    | (Raise e, w') => (Raise e, w')
    end
  end.

(** The block under [if __name__ == "__main__"]. *)
Definition main (globals : Namespace) (w : World) : result unit * World :=
  let w := print ("Generating " ++ str num_frames
                  ++ " frames of evolving patterns...") w in
  match frames globals (range num_frames) w with
  | (Raise e, w) => (Raise e, w)
  | (Ok _, w) =>
    let w := print (String "010" "Generation complete!") w in
    let w := print "You can now view the generated PNG files to see the evolving patterns." w in
    let w := print "Consider using a GIF maker tool to combine these PNGs into an animation." w in
    (Ok tt, w)
  end.

(** ** Reading a file name *)

(** The number a string of decimal digits denotes, if it is one. *)
Definition digits_value (s : string) : option Z :=
  option_map Z.of_uint (NilEmpty.uint_of_string s).

(** The box of the cell at [row] and [col] (lines 102 to 105). *)
Definition cell_box (row col : Z) : Z * Z * Z * Z :=
  let x1 := (col * CELL_SIZE)%Z in
  let y1 := (row * CELL_SIZE)%Z in
  let x2 := (x1 + CELL_SIZE)%Z in
  let y2 := (y1 + CELL_SIZE)%Z in
  (x1, y1, x2, y2).

(** The cells of the grid in the order the two loops visit them. *)
Definition grid_cells : list (Z * Z) :=
  list_prod (range GRID_SIZE) (range GRID_SIZE).

(** How many lines the strings handed to [print] make on the output: one
    for each call, and one more for each newline inside a string. *)
Fixpoint newlines (s : string) : nat :=
  match s with
  | EmptyString => O
  | String c s' => ((if Ascii.eqb c "010" then 1 else 0) + newlines s')%nat
  end.

Definition lines_printed (w : World) : nat :=
  fold_right (fun line n => (1 + newlines line + n)%nat) O (stdout w).

End PatternGrid.

(* ===================================================================== *)
(** * Floats *)
(* ===================================================================== *)

(** Python's [float]: an IEEE 754 binary64 number.  A finite float is the
    rational it denotes; arithmetic computes the exact result and rounds it
    to the nearest double, ties to even, or to an infinity from the overflow
    threshold on.  (The sign of zero is not kept: nothing in the script
    tells the two zeros apart.) *)
Module Binary64.

Local Open Scope Q_scope.

Inductive float : Type :=
| Finite (x : Q)
| Inf (negative : bool)
| NaN.

Definition pow2 (e : Z) : Q := 2 ^ e.

(** Half-way between the largest double and [2^1024]: an exact result of
    this magnitude or more rounds to an infinity. *)
Definition overflow_threshold : Q := pow2 1024 - pow2 970.

(** The exponent [e] with [2^e <= m < 2^(e+1)], for [m > 0]. *)
Definition ilog2 (m : Q) : Z :=
  let l := (Z.log2 (Qnum m) - Z.log2 (Zpos (Qden m)))%Z in
  if Qle_bool (pow2 l) m then l else (l - 1)%Z.

(** The nearest integer, the even one of the two at a tie. *)
Definition round_half_even (y : Q) : Z :=
  let f := Qfloor y in
  match Qcompare (y - inject_Z f) (1 # 2) with
  | Lt => f
  | Gt => (f + 1)%Z
  | Eq => if Z.even f then f else (f + 1)%Z
  end.

(** Rounding a magnitude [m > 0] below the threshold to 53 significant bits;
    the exponent of a double lies between -1022 and 1023, below that the
    spacing stays that of the subnormal numbers. *)
Definition round_magnitude (m : Q) : Q :=
  let e := Z.min 1023 (Z.max (ilog2 m) (-1022)) in
  let quantum := pow2 (e - 52) in
  inject_Z (round_half_even (m / quantum)) * quantum.

(** The exponent [round_magnitude] rounds at. *)
Definition exponent_of (m : Q) : Z := Z.min 1023 (Z.max (ilog2 m) (-1022)).

Definition round_finite (x : Q) : Q :=
  match Qnum x with
  | Z0 => 0
  | Zpos _ => round_magnitude x
  | Zneg _ => - round_magnitude (- x)
  end.

Definition is_negative (x : Q) : bool :=
  match Qnum x with Zneg _ => true | _ => false end.

(** The float an exact result is rounded to. *)
Definition of_Q (x : Q) : float :=
  if Qle_bool overflow_threshold (Qabs x) then Inf (is_negative x)
  else Finite (round_finite x).

Definition is_zero (x : Q) : bool := Qeq_bool x 0.

(** [a * b] and [a + b] on floats. *)
Definition mul (a b : float) : float :=
  match a, b with
  | NaN, _ | _, NaN => NaN
  | Finite x, Finite y => of_Q (x * y)
  | Inf s, Inf s' => Inf (xorb s s')
  | Inf s, Finite y | Finite y, Inf s =>
    if is_zero y then NaN else Inf (xorb s (is_negative y))
  end.

Definition add (a b : float) : float :=
  match a, b with
  | NaN, _ | _, NaN => NaN
  | Finite x, Finite y => of_Q (x + y)
  | Inf s, Inf s' => if Bool.eqb s s' then Inf s else NaN
  | Inf s, Finite _ | Finite _, Inf s => Inf s
  end.

(** The float of an [int] that meets a float in an operation; an [int] too
    large for a float raises [OverflowError]. *)
Definition of_int (n : Z) : PatternGrid.result float :=
  match of_Q (inject_Z n) with
  | Finite x => PatternGrid.Ok (Finite x)
  | _ => PatternGrid.Raise PatternGrid.OverflowError
  end.

End Binary64.

(* ===================================================================== *)
(** * python_tutorial_262ddc.py on floats: the colour mapper *)
(* ===================================================================== *)

Module PatternGridFloat.

Import Binary64 PatternGrid.

(** [int(x)] on a float: the integer part of a finite float, rounding
    towards zero; [OverflowError] on an infinity, [ValueError] on [nan]. *)
Definition int (x : float) : result Z :=
  match x with
  | Finite q => Ok (PatternGrid.int q)
  | Inf _ => Raise OverflowError
  | NaN => Raise ValueError
  end.

(** [int(start + (stop - start) * value)] for two [int]s and a float (each
    of lines 71 to 73): the difference of the [int]s is exact, the product
    and the sum are taken on floats. *)
Definition channel (start stop : Z) (value : float) : result Z :=
  (factor <- of_int (stop - start) ;;
   let product := mul factor value in
   base <- of_int start ;;
   int (add base product))%result.

(** What [channel 0 stop] returns on a finite value whose product with
    [stop] does not overflow. *)
Definition rounded_channel (stop : Z) (x : Q) : Z :=
  PatternGrid.int
    (round_finite (0 + round_finite (round_finite (inject_Z (stop - 0)) * x))).

(** [map_value_to_color(value)] on a float. *)
Definition map_value_to_color (value : float) : result Color :=
  let start_color := fst PATTERN_COLOR_RANGE in
  let end_color := snd PATTERN_COLOR_RANGE in
  (r <- channel (ch0 start_color) (ch0 end_color) value ;;
   g <- channel (ch1 start_color) (ch1 end_color) value ;;
   b <- channel (ch2 start_color) (ch2 end_color) value ;;
   let r := clamp r in
   let g := clamp g in
   let b := clamp b in
   Ok (r, g, b))%result.

End PatternGridFloat.

(* ===================================================================== *)
(** * Properties of the fractal-tree drawer *)
(* ===================================================================== *)

Section TurtleFacts.

Import Turtle.
Local Open Scope R_scope.

Lemma Rmod360_range (x : R) : 0 <= Rmod360 x < 360.
Proof.
  unfold Rmod360.
  pose proof (Zfloor_bound (x / 360)) as [Hlo Hhi].
  assert (Hx : x = 360 * (x / 360)) by (field; lra).
  split; lra.
Qed.

Lemma Rmod360_small (x : R) : 0 <= x < 360 -> Rmod360 x = x.
Proof.
  intros [Hlo Hhi]. unfold Rmod360.
  assert (Hq : 0 <= x / 360 < 1).
  { split.
    - apply Rmult_le_pos; lra.
    - apply (Rmult_lt_reg_r 360); [lra|].
      replace (x / 360 * 360) with x by (field; lra). lra. }
  rewrite (Zfloor_eq 0 (x / 360)) by (simpl; lra).
  simpl. lra.
Qed.

Lemma Rmod360_idem (x : R) : Rmod360 (Rmod360 x) = Rmod360 x.
Proof. apply Rmod360_small, Rmod360_range. Qed.

End TurtleFacts.

Section DrawerFacts.

Import Turtle FractalTree.
Local Open Scope R_scope.

(** One unfolding of the procedure. *)
Lemma draw_fractal_tree_unfold (fuel : nat) (length : R) (depth : Z) (t : Turtle) :
  draw_fractal_tree (S fuel) length depth t =
  if (depth =? 0)%Z then Some (tt, t)
  else
    match draw_fractal_tree fuel (length * BRANCH_SCALE) (depth - 1)
            (before_left_branch length t) with
    | None => None
    | Some (_, t1) =>
      match draw_fractal_tree fuel (length * BRANCH_SCALE) (depth - 1)
              (before_right_branch length t t1) with
      | None => None
      | Some (_, t2) => Some (tt, restored length t t2)
      end
    end.
Proof.
  cbn [draw_fractal_tree]. destruct (depth =? 0)%Z; [reflexivity|].
  unfold bind, method, query, before_left_branch, before_right_branch, restored.
  cbn [position heading fst snd].
  destruct (draw_fractal_tree fuel _ _ _) as [[[] t1]|]; [|reflexivity].
  destruct (draw_fractal_tree fuel _ _ _) as [[[] t2]|]; reflexivity.
Qed.

(** With a budget that is not negative and fuel beyond it, the procedure
    returns, and the turtle has received [2^depth - 1] more [forward] calls. *)
Lemma draw_fractal_tree_returns (fuel : nat) :
  forall (length : R) (depth : Z) (t : Turtle),
    (0 <= depth)%Z -> (Z.to_nat depth < fuel)%nat ->
    exists t', draw_fractal_tree fuel length depth t = Some (tt, t') /\
               Z.of_nat (forward_calls t') =
               (Z.of_nat (forward_calls t) + (2 ^ depth - 1))%Z.
Proof.
  induction fuel as [|fuel IH]; intros length depth t Hd Hf; [lia|].
  rewrite draw_fractal_tree_unfold.
  destruct (Z.eqb_spec depth 0) as [->|Hnz].
  - exists t. split; [reflexivity|]. simpl. lia.
  - assert (Hd' : (0 <= depth - 1)%Z) by lia.
    assert (Hf' : (Z.to_nat (depth - 1) < fuel)%nat) by lia.
    destruct (IH (length * BRANCH_SCALE) (depth - 1)%Z
                 (before_left_branch length t) Hd' Hf') as (t1 & E1 & C1).
    rewrite E1.
    destruct (IH (length * BRANCH_SCALE) (depth - 1)%Z
                 (before_right_branch length t t1) Hd' Hf') as (t2 & E2 & C2).
    rewrite E2.
    exists (restored length t t2). split; [reflexivity|].
    assert (Hpow : (2 ^ depth = 2 * 2 ^ (depth - 1))%Z).
    { replace depth with (Z.succ (depth - 1)) at 1 by lia.
      apply Z.pow_succ_r; lia. }
    assert (Hres : forward_calls (restored length t t2) = forward_calls t2)
      by reflexivity.
    assert (Hr : forward_calls (before_right_branch length t t1) = forward_calls t1)
      by reflexivity.
    assert (Hl : forward_calls (before_left_branch length t) = S (forward_calls t))
      by reflexivity.
    rewrite Hres, C2, Hr, C1, Hl. lia.
Qed.

(** X1: a negative budget never meets the base case, since each call passes
    on [depth - 1]: no amount of fuel makes the procedure return. *)
Lemma draw_fractal_tree_negative (fuel : nat) :
  forall (length : R) (depth : Z) (t : Turtle),
    (depth < 0)%Z -> draw_fractal_tree fuel length depth t = None.
Proof.
  induction fuel as [|fuel IH]; intros length depth t Hd; [reflexivity|].
  rewrite draw_fractal_tree_unfold.
  destruct (Z.eqb_spec depth 0); [lia|].
  rewrite IH by lia. reflexivity.
Qed.

(** Where a returning call with a budget other than zero leaves the cursor:
    at the pose saved after its own [forward]. *)
Lemma draw_fractal_tree_final (fuel : nat) (length : R) (depth : Z) (t t' : Turtle) :
  depth <> 0%Z ->
  draw_fractal_tree fuel length depth t = Some (tt, t') ->
  heading_of t' = heading_of t /\
  position_of t' = position_of (forward length t) /\
  isdown t' = true.
Proof.
  intros Hnz E. destruct fuel as [|fuel]; [discriminate|].
  rewrite draw_fractal_tree_unfold in E.
  destruct (Z.eqb_spec depth 0); [contradiction|].
  destruct (draw_fractal_tree fuel _ _ _) as [[[] t1]|]; [|discriminate].
  destruct (draw_fractal_tree fuel _ _ _) as [[[] t2]|]; [|discriminate].
  injection E as <-.
  unfold restored, heading_of, position_of. cbn.
  split; [apply Rmod360_idem|]. split; reflexivity.
Qed.

End DrawerFacts.

Section DrawerFuel.

Import Turtle FractalTree.
Local Open Scope R_scope.

(** More fuel does not change what a returning call returns. *)
Lemma draw_fractal_tree_more_fuel (fuel : nat) :
  forall (length : R) (depth : Z) (t : Turtle) (r : unit * Turtle),
    draw_fractal_tree fuel length depth t = Some r ->
    draw_fractal_tree (S fuel) length depth t = Some r.
Proof.
  induction fuel as [|fuel IH]; intros length depth t r E; [discriminate|].
  rewrite draw_fractal_tree_unfold in E. rewrite draw_fractal_tree_unfold.
  destruct (depth =? 0)%Z; [assumption|].
  destruct (draw_fractal_tree fuel _ _ (before_left_branch length t))
    as [[[] t1]|] eqn:E1; [|discriminate].
  rewrite (IH _ _ _ _ E1).
  destruct (draw_fractal_tree fuel _ _ (before_right_branch length t t1))
    as [[[] t2]|] eqn:E2; [|discriminate].
  rewrite (IH _ _ _ _ E2). assumption.
Qed.

Lemma draw_fractal_tree_fuel_le (fuel fuel' : nat) (length : R) (depth : Z)
    (t : Turtle) (r : unit * Turtle) :
  (fuel <= fuel')%nat ->
  draw_fractal_tree fuel length depth t = Some r ->
  draw_fractal_tree fuel' length depth t = Some r.
Proof.
  intros Hle E. induction Hle as [|m Hle IH]; [assumption|].
  apply draw_fractal_tree_more_fuel, IH.
Qed.

(** The calls nest [depth + 1] deep: with less fuel the base case is not
    reached. *)
Lemma draw_fractal_tree_fuel_short (fuel : nat) :
  forall (length : R) (depth : Z) (t : Turtle),
    (0 <= depth)%Z -> (fuel <= Z.to_nat depth)%nat ->
    draw_fractal_tree fuel length depth t = None.
Proof.
  induction fuel as [|fuel IH]; intros length depth t Hd Hf; [reflexivity|].
  rewrite draw_fractal_tree_unfold.
  destruct (Z.eqb_spec depth 0) as [->|Hnz]; [simpl in Hf; lia|].
  rewrite IH by lia. reflexivity.
Qed.

End DrawerFuel.

Section DrawerClaims.

Import Turtle FractalTree.
Local Open Scope R_scope.

(** C1, on the code: the claim does not hold.  The comment at lines 83 to 85
    wants the call to backtrack to the starting position of its branch, but
    lines 87 and 88 restore the pose saved at lines 58 and 59, after the
    [forward] of line 54: the root call of [create_fractal_art], of length
    100 and budget 9, returns with the cursor at (0, -150), having started
    at (0, -250). *)
Lemma root_call_displaces_cursor :
  exists t' : Turtle,
    create_fractal_art 10 = Some (tt, t') /\
    position_of artist = (0, -250) /\
    position_of t' = (0, -150) /\
    ~ (position_of t' = position_of artist /\
       heading_of t' = heading_of artist).
Proof.
  unfold create_fractal_art.
  destruct (draw_fractal_tree_returns 10 INITIAL_LENGTH RECURSION_DEPTH artist)
    as (t' & E & _); [unfold RECURSION_DEPTH; lia | unfold RECURSION_DEPTH; simpl; lia |].
  exists t'. split; [assumption|].
  destruct (draw_fractal_tree_final 10 INITIAL_LENGTH RECURSION_DEPTH artist t')
    as (_ & Hp & _); [unfold RECURSION_DEPTH; lia | assumption |].
  assert (Hh : heading_of artist = 90).
  { unfold heading_of, artist; cbn.
    replace (0 + 90) with 90 by lra. apply Rmod360_small; lra. }
  assert (Ht : position_of t' = (0, -150)).
  { rewrite Hp. unfold position_of, forward. cbn [pos]. rewrite Hh.
    replace (radians 90) with (PI / 2) by (unfold radians; field).
    rewrite cos_PI2, sin_PI2. unfold artist, INITIAL_LENGTH; cbn.
    f_equal; lra. }
  split; [reflexivity|]. split; [assumption|].
  intros [Hpos _]. rewrite Ht in Hpos. unfold position_of, artist in Hpos.
  cbn in Hpos. injection Hpos as Hy. lra.
Qed.

(** C4: for every budget [depth >= 0] and every length, the call returns
    having issued exactly [2^depth - 1] calls of [t.forward]: none for
    budget 0, one for budget 1, three for budget 2. *)
Theorem draw_fractal_tree_forward_calls
    (fuel : nat) (length : R) (depth : Z) (t : Turtle) :
  (0 <= depth)%Z -> (Z.to_nat depth < fuel)%nat ->
  exists t' : Turtle,
    draw_fractal_tree fuel length depth t = Some (tt, t') /\
    (Z.of_nat (forward_calls t') - Z.of_nat (forward_calls t) = 2 ^ depth - 1)%Z /\
    (depth = 0%Z -> forward_calls t' = forward_calls t) /\
    (depth = 1%Z -> forward_calls t' = (forward_calls t + 1)%nat) /\
    (depth = 2%Z -> forward_calls t' = (forward_calls t + 3)%nat).
Proof.
  intros Hd Hf.
  destruct (draw_fractal_tree_returns fuel length depth t Hd Hf) as (t' & E & C).
  exists t'. split; [assumption|]. split; [lia|].
  repeat split; intros ->; simpl in C; lia.
Qed.

Lemma draw_fractal_tree_forward_calls_witness :
  (0 <= 2)%Z /\ (Z.to_nat 2 < 3)%nat /\
  exists t' : Turtle,
    draw_fractal_tree 3 INITIAL_LENGTH 2 artist = Some (tt, t') /\
    (Z.of_nat (forward_calls t') - Z.of_nat (forward_calls artist) = 2 ^ 2 - 1)%Z /\
    (2%Z = 0%Z -> forward_calls t' = forward_calls artist) /\
    (2%Z = 1%Z -> forward_calls t' = (forward_calls artist + 1)%nat) /\
    (2%Z = 2%Z -> forward_calls t' = (forward_calls artist + 3)%nat).
Proof.
  split; [lia|]. split; [simpl; lia|].
  apply (draw_fractal_tree_forward_calls 3 INITIAL_LENGTH 2 artist);
    [lia | simpl; lia].
Defined.

(** C8: for every budget [depth >= 0] and every length the call terminates.
    The call at budget 0 returns at once; a call at another budget makes its
    two recursive calls at [depth - 1]; so the calls nest exactly [depth + 1]
    deep: any fuel beyond [depth] gives one and the same result, and no less
    fuel reaches the base case. *)
Theorem draw_fractal_tree_terminates (length : R) (depth : Z) (t : Turtle) :
  (0 <= depth)%Z ->
  (exists t' : Turtle,
     forall fuel : nat, (Z.to_nat depth < fuel)%nat ->
       draw_fractal_tree fuel length depth t = Some (tt, t')) /\
  (forall fuel : nat, (fuel <= Z.to_nat depth)%nat ->
     draw_fractal_tree fuel length depth t = None) /\
  (forall fuel : nat, draw_fractal_tree (S fuel) length 0 t = Some (tt, t)) /\
  (depth <> 0%Z -> forall fuel : nat,
     draw_fractal_tree (S fuel) length depth t =
     match draw_fractal_tree fuel (length * BRANCH_SCALE) (depth - 1)
             (before_left_branch length t) with
     | None => None
     | Some (_, t1) =>
       match draw_fractal_tree fuel (length * BRANCH_SCALE) (depth - 1)
               (before_right_branch length t t1) with
       | None => None
       | Some (_, t2) => Some (tt, restored length t t2)
       end
     end).
Proof.
  intros Hd. split; [|split; [|split]].
  - destruct (draw_fractal_tree_returns (S (Z.to_nat depth)) length depth t)
      as (t' & E & _); [assumption | lia |].
    exists t'. intros fuel Hf.
    apply (draw_fractal_tree_fuel_le (S (Z.to_nat depth)) fuel); [lia | assumption].
  - intros fuel Hf. apply draw_fractal_tree_fuel_short; assumption.
  - intros fuel. reflexivity.
  - intros Hnz fuel. rewrite draw_fractal_tree_unfold.
    destruct (Z.eqb_spec depth 0); [contradiction | reflexivity].
Qed.

Lemma draw_fractal_tree_terminates_witness :
  (0 <= RECURSION_DEPTH)%Z /\
  (exists t' : Turtle,
     forall fuel : nat, (Z.to_nat RECURSION_DEPTH < fuel)%nat ->
       draw_fractal_tree fuel INITIAL_LENGTH RECURSION_DEPTH artist = Some (tt, t')) /\
  (forall fuel : nat, (fuel <= Z.to_nat RECURSION_DEPTH)%nat ->
     draw_fractal_tree fuel INITIAL_LENGTH RECURSION_DEPTH artist = None).
Proof.
  assert (H : (0 <= RECURSION_DEPTH)%Z) by (unfold RECURSION_DEPTH; lia).
  split; [exact H|].
  destruct (draw_fractal_tree_terminates INITIAL_LENGTH RECURSION_DEPTH artist H)
    as (H1 & H2 & _).
  split; [exact H1 | exact H2].
Defined.

(** C9: for every length and every budget of at least 1, the call returns
    with the heading it was entered with, at the entry position moved by
    [length] along the entry heading (the tip of the branch it drew). *)
Theorem draw_fractal_tree_ends_at_tip
    (fuel : nat) (length : R) (depth : Z) (t : Turtle) :
  (1 <= depth)%Z -> (Z.to_nat depth < fuel)%nat ->
  exists t' : Turtle,
    draw_fractal_tree fuel length depth t = Some (tt, t') /\
    heading_of t' = heading_of t /\
    position_of t' =
      (fst (position_of t) + length * cos (radians (heading_of t)),
       snd (position_of t) + length * sin (radians (heading_of t))).
Proof.
  intros Hd Hf.
  destruct (draw_fractal_tree_returns fuel length depth t) as (t' & E & _);
    [lia | assumption |].
  exists t'. split; [assumption|].
  destruct (draw_fractal_tree_final fuel length depth t t') as (Hh & Hp & _);
    [lia | assumption |].
  split; [assumption|]. rewrite Hp. reflexivity.
Qed.

Lemma draw_fractal_tree_ends_at_tip_witness :
  (1 <= RECURSION_DEPTH)%Z /\ (Z.to_nat RECURSION_DEPTH < 10)%nat /\
  exists t' : Turtle,
    draw_fractal_tree 10 INITIAL_LENGTH RECURSION_DEPTH artist = Some (tt, t') /\
    heading_of t' = heading_of artist /\
    position_of t' =
      (fst (position_of artist) + INITIAL_LENGTH * cos (radians (heading_of artist)),
       snd (position_of artist) + INITIAL_LENGTH * sin (radians (heading_of artist))).
Proof.
  assert (H1 : (1 <= RECURSION_DEPTH)%Z) by (unfold RECURSION_DEPTH; lia).
  assert (H2 : (Z.to_nat RECURSION_DEPTH < 10)%nat)
    by (unfold RECURSION_DEPTH; simpl; lia).
  split; [exact H1|]. split; [exact H2|].
  apply (draw_fractal_tree_ends_at_tip 10 INITIAL_LENGTH RECURSION_DEPTH artist H1 H2).
Defined.

End DrawerClaims.

(* ===================================================================== *)
(** * Properties of the pattern-grid renderer *)
(* ===================================================================== *)

Section IntFacts.

Import PatternGrid.
Local Open Scope Q_scope.

Lemma Qnum_nonneg (x : Q) : 0 <= x <-> (0 <= Qnum x)%Z.
Proof. unfold Qle; simpl. lia. Qed.

Lemma Qnum_nonpos (x : Q) : x <= 0 <-> (Qnum x <= 0)%Z.
Proof. unfold Qle; simpl. lia. Qed.

(** On a float that is not negative [int] is the floor. *)
Lemma int_nonneg (x : Q) : 0 <= x -> int x = Qfloor x.
Proof.
  intros H. apply Qnum_nonneg in H. destruct x as [n d]; simpl in *.
  apply Z.quot_div_nonneg; lia.
Qed.

(** On a float that is not positive [int] is the ceiling. *)
Lemma int_nonpos (x : Q) : x <= 0 -> int x = Qceiling x.
Proof.
  intros H. apply Qnum_nonpos in H. destruct x as [n d]; simpl in *.
  unfold Qceiling, int; simpl.
  rewrite <- (Z.quot_div_nonneg (- n) (Z.pos d)) by lia.
  rewrite Z.quot_opp_l by lia. lia.
Qed.

Lemma int_resp_le (x y : Q) : x <= y -> (int x <= int y)%Z.
Proof.
  intros Hxy.
  destruct (Qlt_le_dec x 0) as [Hx|Hx].
  - rewrite (int_nonpos x) by (apply Qlt_le_weak; exact Hx).
    destruct (Qlt_le_dec 0 y) as [Hy|Hy].
    + rewrite (int_nonneg y) by (apply Qlt_le_weak; exact Hy).
      transitivity 0%Z.
      * change 0%Z with (Qceiling 0). apply Qceiling_resp_le, Qlt_le_weak, Hx.
      * change 0%Z with (Qfloor 0). apply Qfloor_resp_le, Qlt_le_weak, Hy.
    + rewrite (int_nonpos y) by exact Hy. apply Qceiling_resp_le, Hxy.
  - rewrite (int_nonneg x) by exact Hx.
    rewrite (int_nonneg y) by (apply Qle_trans with x; assumption).
    apply Qfloor_resp_le, Hxy.
Qed.

(** [int] does not depend on how the fraction is written. *)
Lemma int_comp (x y : Q) : x == y -> int x = int y.
Proof.
  intros E. apply Z.le_antisymm; apply int_resp_le; rewrite E; apply Qle_refl.
Qed.

Lemma clamp_range (c : Z) : (0 <= clamp c <= 255)%Z.
Proof. unfold clamp. lia. Qed.

Lemma clamp_resp_le (c d : Z) : (c <= d)%Z -> (clamp c <= clamp d)%Z.
Proof. unfold clamp. lia. Qed.

Lemma clamp_id (c : Z) : (0 <= c <= 255)%Z -> clamp c = c.
Proof. unfold clamp. lia. Qed.

(** The channels before the clamp, written out with the constants of
    [PATTERN_COLOR_RANGE]. *)
Lemma interpolate_eq (value : Q) :
  interpolate value =
  (int (0 + 100 * value), int (0 + 100 * value), int (0 + 255 * value)).
Proof. reflexivity. Qed.

Lemma map_value_to_color_eq (value : Q) :
  map_value_to_color value =
  (clamp (ch0 (interpolate value)), clamp (ch1 (interpolate value)),
   clamp (ch2 (interpolate value))).
Proof. reflexivity. Qed.

(** For a value between 0 and 1 the channels before the clamp are already
    between 0 and the channel of the end colour. *)
Lemma interpolate_range (value : Q) :
  0 <= value -> value <= 1 ->
  (0 <= ch0 (interpolate value) <= 100)%Z /\
  (0 <= ch1 (interpolate value) <= 100)%Z /\
  (0 <= ch2 (interpolate value) <= 255)%Z.
Proof.
  intros H0 H1. rewrite interpolate_eq. unfold ch0, ch1, ch2; cbn [fst snd].
  repeat split.
  - apply (int_resp_le 0 (0 + 100 * value)); lra.
  - apply (int_resp_le (0 + 100 * value) 100); lra.
  - apply (int_resp_le 0 (0 + 100 * value)); lra.
  - apply (int_resp_le (0 + 100 * value) 100); lra.
  - apply (int_resp_le 0 (0 + 255 * value)); lra.
  - apply (int_resp_le (0 + 255 * value) 255); lra.
Qed.

Lemma interpolate_resp_le (v1 v2 : Q) :
  v1 <= v2 ->
  (ch0 (interpolate v1) <= ch0 (interpolate v2))%Z /\
  (ch1 (interpolate v1) <= ch1 (interpolate v2))%Z /\
  (ch2 (interpolate v1) <= ch2 (interpolate v2))%Z.
Proof.
  intros H. rewrite !interpolate_eq. unfold ch0, ch1, ch2; cbn [fst snd].
  repeat split; apply int_resp_le; lra.
Qed.

End IntFacts.

Section ColorClaims.

Import PatternGrid.
Local Open Scope Q_scope.

(** C5: the value 0 is mapped to the start colour (0, 0, 0), the value 1 to
    the end colour (100, 100, 255), however the two floats are written, and
    for [v1 <= v2] between 0 and 1 no channel of the colour of [v1] exceeds
    the same channel of the colour of [v2]. *)
Theorem map_value_to_color_interpolates :
  (forall v : Q, v == 0 ->
     map_value_to_color v = fst PATTERN_COLOR_RANGE /\
     map_value_to_color v = (0, 0, 0)%Z) /\
  (forall v : Q, v == 1 ->
     map_value_to_color v = snd PATTERN_COLOR_RANGE /\
     map_value_to_color v = (100, 100, 255)%Z) /\
  (forall v1 v2 : Q, 0 <= v1 -> v1 <= v2 -> v2 <= 1 ->
     (ch0 (map_value_to_color v1) <= ch0 (map_value_to_color v2))%Z /\
     (ch1 (map_value_to_color v1) <= ch1 (map_value_to_color v2))%Z /\
     (ch2 (map_value_to_color v1) <= ch2 (map_value_to_color v2))%Z).
Proof.
  split; [|split].
  - intros v E. rewrite map_value_to_color_eq, interpolate_eq.
    unfold ch0, ch1, ch2; cbn [fst snd].
    rewrite (int_comp (0 + 100 * v) 0) by (rewrite E; reflexivity).
    rewrite (int_comp (0 + 255 * v) 0) by (rewrite E; reflexivity).
    split; reflexivity.
  - intros v E. rewrite map_value_to_color_eq, interpolate_eq.
    unfold ch0, ch1, ch2; cbn [fst snd].
    rewrite (int_comp (0 + 100 * v) 100) by (rewrite E; reflexivity).
    rewrite (int_comp (0 + 255 * v) 255) by (rewrite E; reflexivity).
    split; reflexivity.
  - intros v1 v2 _ H _.
    destruct (interpolate_resp_le v1 v2 H) as (H0 & H1 & H2).
    rewrite !map_value_to_color_eq. unfold ch0 at 1 3, ch1 at 1 3, ch2 at 1 3.
    cbn [fst snd]. repeat split; apply clamp_resp_le; assumption.
Qed.

Lemma map_value_to_color_interpolates_witness :
  (0.0 == 0 /\ map_value_to_color 0.0 = (0, 0, 0)%Z) /\
  (1.0 == 1 /\ map_value_to_color 1.0 = (100, 100, 255)%Z) /\
  (0 <= 0.25 /\ 0.25 <= 0.5 /\ 0.5 <= 1 /\
   (ch0 (map_value_to_color 0.25) <= ch0 (map_value_to_color 0.5))%Z /\
   (ch1 (map_value_to_color 0.25) <= ch1 (map_value_to_color 0.5))%Z /\
   (ch2 (map_value_to_color 0.25) <= ch2 (map_value_to_color 0.5))%Z).
Proof.
  destruct map_value_to_color_interpolates as (H0 & H1 & Hm).
  assert (E0 : 0.0 == 0) by reflexivity.
  assert (E1 : 1.0 == 1) by reflexivity.
  assert (L0 : 0 <= 0.25) by (unfold Qle; simpl; lia).
  assert (L1 : 0.25 <= 0.5) by (unfold Qle; simpl; lia).
  assert (L2 : 0.5 <= 1) by (unfold Qle; simpl; lia).
  split; [split; [exact E0 | exact (proj2 (H0 0.0 E0))]|].
  split; [split; [exact E1 | exact (proj2 (H1 1.0 E1))]|].
  split; [exact L0|]. split; [exact L1|]. split; [exact L2|].
  exact (Hm 0.25 0.5 L0 L1 L2).
Defined.

(** C10: for a value between 0 and 1 the channels as interpolated are
    already between 0 and 255, and the clamp leaves each of them as it is:
    the colour returned is the interpolated one. *)
Theorem map_value_to_color_clamp_noop (value : Q) :
  0 <= value -> value <= 1 ->
  ((0 <= ch0 (interpolate value) <= 255)%Z /\
   (0 <= ch1 (interpolate value) <= 255)%Z /\
   (0 <= ch2 (interpolate value) <= 255)%Z) /\
  (clamp (ch0 (interpolate value)) = ch0 (interpolate value) /\
   clamp (ch1 (interpolate value)) = ch1 (interpolate value) /\
   clamp (ch2 (interpolate value)) = ch2 (interpolate value)) /\
  map_value_to_color value = interpolate value.
Proof.
  intros H0 H1.
  destruct (interpolate_range value H0 H1) as (R0 & R1 & R2).
  assert (C0 : clamp (ch0 (interpolate value)) = ch0 (interpolate value))
    by (apply clamp_id; lia).
  assert (C1 : clamp (ch1 (interpolate value)) = ch1 (interpolate value))
    by (apply clamp_id; lia).
  assert (C2 : clamp (ch2 (interpolate value)) = ch2 (interpolate value))
    by (apply clamp_id; lia).
  split; [repeat split; lia|]. split; [repeat split; assumption|].
  rewrite map_value_to_color_eq, C0, C1, C2.
  destruct (interpolate value) as [[r g] b]. reflexivity.
Qed.

Lemma map_value_to_color_clamp_noop_witness :
  0 <= 0.5 /\ 0.5 <= 1 /\
  ((0 <= ch0 (interpolate 0.5) <= 255)%Z /\
   (0 <= ch1 (interpolate 0.5) <= 255)%Z /\
   (0 <= ch2 (interpolate 0.5) <= 255)%Z) /\
  (clamp (ch0 (interpolate 0.5)) = ch0 (interpolate 0.5) /\
   clamp (ch1 (interpolate 0.5)) = ch1 (interpolate 0.5) /\
   clamp (ch2 (interpolate 0.5)) = ch2 (interpolate 0.5)) /\
  map_value_to_color 0.5 = interpolate 0.5.
Proof.
  assert (L0 : 0 <= 0.5) by (unfold Qle; simpl; lia).
  assert (L1 : 0.5 <= 1) by (unfold Qle; simpl; lia).
  split; [exact L0|]. split; [exact L1|].
  exact (map_value_to_color_clamp_noop 0.5 L0 L1).
Defined.

(** Outside the range the clamp does act, on both sides. *)
Example clamp_acts_above :
  interpolate 2 = (200, 200, 510)%Z /\ map_value_to_color 2 = (200, 200, 255)%Z.
Proof. split; reflexivity. Qed.

Example clamp_acts_below :
  interpolate (-1) = (-100, -100, -255)%Z /\ map_value_to_color (-1) = (0, 0, 0)%Z.
Proof. split; reflexivity. Qed.

Example map_value_to_color_half :
  map_value_to_color 0.5 = (50, 50, 127)%Z.
Proof. reflexivity. Qed.

End ColorClaims.

Section PatternValue.

Import PatternGrid.
Local Open Scope Q_scope.
Local Open Scope string_scope.

(** Neither the module's globals nor the built-ins bind [math]. *)
Lemma math_is_unbound :
  lookup "math" module_globals = None /\ lookup "math" builtins = None.
Proof. split; reflexivity. Qed.

(** In a module that does not bind [math], every call raises [NameError]
    at line 48, whatever its arguments. *)
Lemma get_pattern_value_unbound (globals : Namespace) (row col : Z) (time_factor : Q) :
  lookup "math" globals = None ->
  get_pattern_value globals row col time_factor = Raise (NameError "math").
Proof.
  intros H. unfold get_pattern_value, load_global. rewrite H.
  reflexivity.
Qed.

(** C2, on the code: the claim does not hold.  [math] is never imported
    (lines 12 to 14), so every call of [get_pattern_value] raises
    [NameError]; no call returns normally. *)
Theorem get_pattern_value_raises (row col : Z) (time_factor : Q) :
  get_pattern_value module_globals row col time_factor = Raise (NameError "math").
Proof. apply get_pattern_value_unbound. reflexivity. Qed.

(** C3, on the code: the claim does not hold.  At row 0, column 0 and time 0
    the call raises [NameError] instead of yielding a value, and no
    arguments make it return one. *)
Theorem get_pattern_value_yields_no_value :
  get_pattern_value module_globals 0 0 0 = Raise (NameError "math") /\
  forall (row col : Z) (time_factor v : Q),
    get_pattern_value module_globals row col time_factor <> Ok v.
Proof.
  split.
  - reflexivity.
  - intros row col time_factor v.
    rewrite get_pattern_value_unbound by reflexivity. discriminate.
Qed.

(** What the function computes once [math] is bound to a module [m]. *)
Lemma get_pattern_value_with_math (m : MathModule) (globals : Namespace)
    (row col : Z) (time_factor : Q) :
  get_pattern_value (with_math m globals) row col time_factor =
  let base_value := inject_Z (row + col) * 0.1 in
  let pattern_noise :=
    inject_Z (Z.abs (row - col)) * 0.2 + inject_Z row * 0.3
    + inject_Z col * 0.4 + time_factor * 0.5 in
  Ok ((math_sin m (base_value + pattern_noise) * 0.5
       + math_cos m (pattern_noise * 1.5) * 0.5 + 1) / 2).
Proof. reflexivity. Qed.

(** With [math] bound to a module whose sine and cosine stay between -1
    and 1, every call returns a value between 0 and 1. *)
Lemma get_pattern_value_with_math_range (m : MathModule) (globals : Namespace)
    (row col : Z) (time_factor : Q) :
  (forall x : Q, -1 <= math_sin m x <= 1) ->
  (forall x : Q, -1 <= math_cos m x <= 1) ->
  exists v : Q,
    get_pattern_value (with_math m globals) row col time_factor = Ok v /\
    0 <= v <= 1.
Proof.
  intros Hs Hc. rewrite get_pattern_value_with_math. cbv zeta.
  eexists. split; [reflexivity|].
  set (s := math_sin m _). set (c := math_cos m _).
  pose proof (Hs (inject_Z (row + col) * 0.1
                  + (inject_Z (Z.abs (row - col)) * 0.2 + inject_Z row * 0.3
                     + inject_Z col * 0.4 + time_factor * 0.5))) as Hs'.
  pose proof (Hc ((inject_Z (Z.abs (row - col)) * 0.2 + inject_Z row * 0.3
                   + inject_Z col * 0.4 + time_factor * 0.5) * 1.5)) as Hc'.
  fold s in Hs'. fold c in Hc'.
  unfold Qdiv. change (/ 2) with (1 # 2). lra.
Qed.

Lemma clip_range (x : Q) : -1 <= clip x <= 1.
Proof.
  unfold clip. split.
  - apply Q.le_max_l.
  - apply Q.max_lub; [discriminate | apply Q.le_min_l].
Qed.

Lemma clipped_math_range :
  (forall x : Q, -1 <= math_sin clipped_math x <= 1) /\
  (forall x : Q, -1 <= math_cos clipped_math x <= 1).
Proof. split; intros x; apply clip_range. Qed.

Example get_pattern_value_origin_with_clipped_math :
  exists v : Q,
    get_pattern_value (with_math clipped_math module_globals) 0 0 0 = Ok v /\
    v == 0.75.
Proof. eexists. split; reflexivity. Qed.

End PatternValue.

Section FrameDriver.

Import PatternGrid.
Local Open Scope Q_scope.
Local Open Scope string_scope.

(** The first cell of the first row already raises: without [math] no
    raster is ever completed. *)
Lemma draw_grid_pattern_unbound (globals : Namespace) (image : Image) (time_factor : Q) :
  lookup "math" globals = None ->
  draw_grid_pattern globals image time_factor = Raise (NameError "math").
Proof.
  intros H. unfold draw_grid_pattern.
  change (range GRID_SIZE) with (0%Z :: List.tl (range GRID_SIZE)).
  cbn [for_each]. rewrite (get_pattern_value_unbound globals _ _ _ H).
  reflexivity.
Qed.

(** C7, on the code: the claim does not hold.  The loop stops in its first
    iteration, in the first cell of the grid, on the [NameError] of
    [get_pattern_value]: the run ends with that exception, has printed its
    first line only, and has saved no file. *)
Theorem main_saves_no_file :
  main module_globals empty_world =
  (Raise (NameError "math"),
   {| files := [];
      stdout := ["Generating 60 frames of evolving patterns..."] |}).
Proof.
  unfold main.
  change (range num_frames) with (0%Z :: List.tl (range num_frames)).
  cbn [frames]. unfold frame.
  rewrite draw_grid_pattern_unbound by reflexivity.
  reflexivity.
Qed.

(** A loop whose body never raises runs to its end. *)
Lemma for_each_ok {A S : Type} (body : A -> S -> result S) :
  (forall x s, exists s', body x s = Ok s') ->
  forall xs s, exists s', for_each xs body s = Ok s'.
Proof.
  intros Hb xs. induction xs as [|x xs IH]; intros s; cbn [for_each].
  - exists s. reflexivity.
  - destruct (Hb x s) as (s' & ->). apply IH.
Qed.

Lemma draw_grid_pattern_with_math (m : MathModule) (globals : Namespace)
    (image : Image) (time_factor : Q) :
  exists image',
    draw_grid_pattern (with_math m globals) image time_factor = Ok image'.
Proof.
  unfold draw_grid_pattern. apply for_each_ok. intros row im.
  apply for_each_ok. intros col im'.
  rewrite get_pattern_value_with_math. cbv zeta. cbn [rbind].
  eexists. reflexivity.
Qed.

(** With [math] bound every frame is saved under the name of line 137. *)
Lemma frames_with_math (m : MathModule) (globals : Namespace) (frame_nums : list Z) :
  forall w : World,
  exists w' : World,
    frames (with_math m globals) frame_nums w = (Ok tt, w') /\
    map fst (files w') = (map fst (files w) ++ map output_filename_of frame_nums)%list.
Proof.
  induction frame_nums as [|n rest IH]; intros w; cbn [frames].
  - exists w. split; [reflexivity|]. cbn. rewrite app_nil_r. reflexivity.
  - unfold frame.
    destruct (draw_grid_pattern_with_math m globals
                (Image_new (IMAGE_WIDTH, IMAGE_HEIGHT) BACKGROUND_COLOR)
                (time_factor_of n)) as (image' & ->).
    cbv zeta.
    destruct (IH (print ("Saved " ++ output_filename_of n)
                    (save image' (output_filename_of n) w))) as (w' & E & F).
    exists w'. split; [exact E|].
    rewrite F. cbn [files print save]. rewrite map_app, <- app_assoc.
    reflexivity.
Qed.

(** The names of line 137 for the frames 0 to 59. *)
Lemma output_filenames :
  map output_filename_of (range num_frames) =
  [ "pattern_grid_001.png"; "pattern_grid_002.png"; "pattern_grid_003.png";
    "pattern_grid_004.png"; "pattern_grid_005.png"; "pattern_grid_006.png";
    "pattern_grid_007.png"; "pattern_grid_008.png"; "pattern_grid_009.png";
    "pattern_grid_010.png"; "pattern_grid_011.png"; "pattern_grid_012.png";
    "pattern_grid_013.png"; "pattern_grid_014.png"; "pattern_grid_015.png";
    "pattern_grid_016.png"; "pattern_grid_017.png"; "pattern_grid_018.png";
    "pattern_grid_019.png"; "pattern_grid_020.png"; "pattern_grid_021.png";
    "pattern_grid_022.png"; "pattern_grid_023.png"; "pattern_grid_024.png";
    "pattern_grid_025.png"; "pattern_grid_026.png"; "pattern_grid_027.png";
    "pattern_grid_028.png"; "pattern_grid_029.png"; "pattern_grid_030.png";
    "pattern_grid_031.png"; "pattern_grid_032.png"; "pattern_grid_033.png";
    "pattern_grid_034.png"; "pattern_grid_035.png"; "pattern_grid_036.png";
    "pattern_grid_037.png"; "pattern_grid_038.png"; "pattern_grid_039.png";
    "pattern_grid_040.png"; "pattern_grid_041.png"; "pattern_grid_042.png";
    "pattern_grid_043.png"; "pattern_grid_044.png"; "pattern_grid_045.png";
    "pattern_grid_046.png"; "pattern_grid_047.png"; "pattern_grid_048.png";
    "pattern_grid_049.png"; "pattern_grid_050.png"; "pattern_grid_051.png";
    "pattern_grid_052.png"; "pattern_grid_053.png"; "pattern_grid_054.png";
    "pattern_grid_055.png"; "pattern_grid_056.png"; "pattern_grid_057.png";
    "pattern_grid_058.png"; "pattern_grid_059.png"; "pattern_grid_060.png" ].
Proof. vm_compute. reflexivity. Qed.

Lemma output_filenames_distinct :
  NoDup (map output_filename_of (range num_frames)).
Proof.
  assert (E : nodup string_dec (map output_filename_of (range num_frames))
              = map output_filename_of (range num_frames))
    by (vm_compute; reflexivity).
  rewrite <- E. apply NoDup_nodup.
Qed.

(** The time factor of every frame of the loop is at least 0 and below 1. *)
Lemma time_factor_range (frame_num : Z) :
  (0 <= frame_num < num_frames)%Z ->
  0 <= time_factor_of frame_num /\ time_factor_of frame_num < 1.
Proof.
  unfold num_frames, time_factor_of. intros [Hlo Hhi].
  unfold Qle, Qlt; simpl. lia.
Qed.

(** What the claim describes is what the script does once [math] is bound:
    60 files, named apart, from [pattern_grid_001.png] to
    [pattern_grid_060.png]. *)
Lemma main_with_math (m : MathModule) :
  exists w : World,
    main (with_math m module_globals) empty_world = (Ok tt, w) /\
    map fst (files w) = map output_filename_of (range num_frames) /\
    List.length (files w) = 60%nat /\
    NoDup (map fst (files w)).
Proof.
  unfold main.
  destruct (frames_with_math m module_globals (range num_frames)
              (print ("Generating " ++ str num_frames
                      ++ " frames of evolving patterns...") empty_world))
    as (w & E & F).
  rewrite E. eexists. split; [reflexivity|].
  cbn [files print]. cbn [files print empty_world map app] in F.
  split; [exact F|]. split.
  - rewrite <- (length_map fst), F, length_map. reflexivity.
  - rewrite F. apply output_filenames_distinct.
Qed.

End FrameDriver.

(* ===================================================================== *)
(** * Further properties of the fractal-tree drawer *)
(* ===================================================================== *)

Section DrawerLog.

Import Turtle FractalTree.
Local Open Scope R_scope.

(** Induction over the calls issued: a property of records that holds of
    the empty record at budget 0, and of an activation's record whenever it
    holds of the records of its two recursive activations, holds of the
    record of every returning call. *)
Lemma draw_fractal_tree_log (P : nat -> R -> list Call -> Prop) :
  (forall length, P O length []) ->
  (forall n length l1 l2 p h,
     P n (length * BRANCH_SCALE) l1 -> P n (length * BRANCH_SCALE) l2 ->
     P (S n) length (activation length p h l1 l2)) ->
  forall (fuel : nat) (length : R) (depth : Z) (t : Turtle),
    (0 <= depth)%Z -> (Z.to_nat depth < fuel)%nat ->
    exists (t' : Turtle) (new : list Call),
      draw_fractal_tree fuel length depth t = Some (tt, t') /\
      calls t' = (new ++ calls t)%list /\
      P (Z.to_nat depth) length new.
Proof.
  intros P0 PS fuel.
  induction fuel as [|fuel IH]; intros length depth t Hd Hf; [lia|].
  rewrite draw_fractal_tree_unfold.
  destruct (Z.eqb_spec depth 0) as [->|Hnz].
  - exists t, []. split; [reflexivity|]. split; [reflexivity|]. apply P0.
  - assert (Hd' : (0 <= depth - 1)%Z) by lia.
    assert (Hf' : (Z.to_nat (depth - 1) < fuel)%nat) by lia.
    destruct (IH (length * BRANCH_SCALE) (depth - 1)%Z
                 (before_left_branch length t) Hd' Hf') as (t1 & l1 & E1 & C1 & P1).
    rewrite E1.
    destruct (IH (length * BRANCH_SCALE) (depth - 1)%Z
                 (before_right_branch length t t1) Hd' Hf') as (t2 & l2 & E2 & C2 & P2).
    rewrite E2.
    exists (restored length t t2),
      (activation length (position_of (forward length t))
                  (heading_of (forward length t)) l1 l2).
    split; [reflexivity|]. split.
    + assert (Hleft : calls (before_left_branch length t)
                      = [Left BRANCH_ANGLE; Heading; Position; Forward length]
                        ++ calls t) by reflexivity.
      assert (Hright : calls (before_right_branch length t t1)
                       = [Right BRANCH_ANGLE; Pendown;
                          Setheading (heading_of (forward length t));
                          Goto (position_of (forward length t)); Penup]
                         ++ calls t1) by reflexivity.
      assert (Hrest : calls (restored length t t2)
                      = [Pendown; Setheading (heading_of (forward length t));
                         Goto (position_of (forward length t)); Penup]
                        ++ calls t2) by reflexivity.
      rewrite Hrest, C2, Hright, C1, Hleft. unfold activation.
      rewrite <- !app_assoc. reflexivity.
    + replace (Z.to_nat depth) with (S (Z.to_nat (depth - 1))) by lia.
      apply PS; assumption.
Qed.

Lemma count_app (kind : Call -> bool) (l1 l2 : list Call) :
  count kind (l1 ++ l2) = (count kind l1 + count kind l2)%nat.
Proof. unfold count. rewrite filter_app, length_app. reflexivity. Qed.

Lemma forward_distances_app (l1 l2 : list Call) :
  forward_distances (l1 ++ l2) = (forward_distances l1 ++ forward_distances l2)%list.
Proof.
  induction l1 as [|c l1 IH]; [reflexivity|].
  destruct c; cbn [forward_distances app]; rewrite IH; reflexivity.
Qed.

Lemma Rsum_app (xs ys : list R) : Rsum (xs ++ ys) = Rsum xs + Rsum ys.
Proof.
  unfold Rsum. induction xs as [|x xs IH]; cbn [fold_right app].
  - rewrite Rplus_0_l. reflexivity.
  - rewrite IH, Rplus_assoc. reflexivity.
Qed.

Lemma pen_after_app (pen0 : bool) (l1 l2 : list Call) :
  pen_after pen0 (l1 ++ l2) = pen_after (pen_after pen0 l2) l1.
Proof.
  induction l1 as [|c l1 IH]; [reflexivity|].
  destruct c; cbn [pen_after app]; try apply IH; reflexivity.
Qed.

Lemma drawing_moves_app (pen0 : bool) (l1 l2 : list Call) :
  drawing_moves pen0 (l1 ++ l2) =
  (drawing_moves (pen_after pen0 l2) l1 ++ drawing_moves pen0 l2)%list.
Proof.
  induction l1 as [|c l1 IH]; [reflexivity|].
  cbn [drawing_moves app]. rewrite pen_after_app, IH.
  destruct ((is_forward c || is_goto c) && pen_after (pen_after pen0 l2) l1)%bool;
    reflexivity.
Qed.

Lemma pow2_nat (n : nat) : (2 ^ S n = 2 * 2 ^ n)%nat.
Proof. cbn [Nat.pow]. reflexivity. Qed.

Lemma pow2_pos (n : nat) : (1 <= 2 ^ n)%nat.
Proof. induction n as [|n IH]; cbn [Nat.pow]; lia. Qed.

End DrawerLog.

Section DrawerExtras.

Import Turtle FractalTree.
Local Open Scope R_scope.

Lemma draw_fractal_tree_negative_witness :
  (-1 < 0)%Z /\ draw_fractal_tree 1000 INITIAL_LENGTH (-1) artist = None.
Proof.
  assert (H : (-1 < 0)%Z) by lia.
  split; [exact H|].
  exact (draw_fractal_tree_negative 1000 INITIAL_LENGTH (-1) artist H).
Defined.

(** X2: a returning call at budget [depth >= 0] adds to the turtle's record
    [2^depth - 1] calls each of [forward], [position], [heading], [left] and
    [right], twice as many each of [penup], [goto], [setheading] and
    [pendown], that is [13 * (2^depth - 1)] calls in all, and nothing else
    of the record changes. *)
Theorem draw_fractal_tree_call_counts
    (fuel : nat) (length : R) (depth : Z) (t : Turtle) :
  (0 <= depth)%Z -> (Z.to_nat depth < fuel)%nat ->
  exists (t' : Turtle) (new : list Call),
    draw_fractal_tree fuel length depth t = Some (tt, t') /\
    calls t' = (new ++ calls t)%list /\
    let once := (2 ^ Z.to_nat depth - 1)%nat in
    count is_forward new = once /\ count is_position new = once /\
    count is_heading new = once /\ count is_left new = once /\
    count is_right new = once /\
    count is_penup new = (2 * once)%nat /\ count is_goto new = (2 * once)%nat /\
    count is_setheading new = (2 * once)%nat /\
    count is_pendown new = (2 * once)%nat /\
    List.length new = (13 * once)%nat.
Proof.
  apply (draw_fractal_tree_log (fun n _ new =>
    let once := (2 ^ n - 1)%nat in
    count is_forward new = once /\ count is_position new = once /\
    count is_heading new = once /\ count is_left new = once /\
    count is_right new = once /\
    count is_penup new = (2 * once)%nat /\ count is_goto new = (2 * once)%nat /\
    count is_setheading new = (2 * once)%nat /\
    count is_pendown new = (2 * once)%nat /\
    List.length new = (13 * once)%nat)).
  - intros _. cbv zeta. cbn. repeat split; reflexivity.
  - intros n len l1 l2 p h.
    intros (F1 & P1 & H1 & L1 & R1 & U1 & G1 & S1 & D1 & N1)
           (F2 & P2 & H2 & L2 & R2 & U2 & G2 & S2 & D2 & N2).
    cbv zeta in *. unfold activation.
    rewrite !count_app, !length_app.
    rewrite F1, P1, H1, L1, R1, U1, G1, S1, D1, N1.
    rewrite F2, P2, H2, L2, R2, U2, G2, S2, D2, N2.
    pose proof (pow2_pos n) as Hp. rewrite pow2_nat.
    unfold count; cbn [filter List.length is_forward is_position is_heading
                       is_left is_right is_penup is_goto is_setheading is_pendown].
    repeat split; lia.
Qed.

Lemma draw_fractal_tree_call_counts_witness :
  (0 <= 2)%Z /\ (Z.to_nat 2 < 3)%nat /\
  exists (t' : Turtle) (new : list Call),
    draw_fractal_tree 3 INITIAL_LENGTH 2 artist = Some (tt, t') /\
    calls t' = (new ++ calls artist)%list /\
    count is_forward new = 3%nat /\ count is_goto new = 6%nat /\
    List.length new = 39%nat.
Proof.
  assert (H1 : (0 <= 2)%Z) by lia.
  assert (H2 : (Z.to_nat 2 < 3)%nat) by (simpl; lia).
  split; [exact H1|]. split; [exact H2|].
  destruct (draw_fractal_tree_call_counts 3 INITIAL_LENGTH 2 artist H1 H2)
    as (t' & new & E & C & F & _ & _ & _ & _ & _ & G & _ & _ & N).
  exists t', new. repeat split; assumption.
Defined.

(** X3: the distances of the [forward] calls of a returning call at budget
    [depth >= 0] add up to [length * (1.4^depth - 1) / 0.4]: each level of
    the tree has twice the branches of the level above, each 0.7 times as
    long. *)
Theorem draw_fractal_tree_total_distance
    (fuel : nat) (length : R) (depth : Z) (t : Turtle) :
  (0 <= depth)%Z -> (Z.to_nat depth < fuel)%nat ->
  exists (t' : Turtle) (new : list Call),
    draw_fractal_tree fuel length depth t = Some (tt, t') /\
    calls t' = (new ++ calls t)%list /\
    Rsum (forward_distances new)
    = length * ((2 * BRANCH_SCALE) ^ Z.to_nat depth - 1) / (2 * BRANCH_SCALE - 1).
Proof.
  apply (draw_fractal_tree_log (fun n len new =>
    Rsum (forward_distances new)
    = len * ((2 * BRANCH_SCALE) ^ n - 1) / (2 * BRANCH_SCALE - 1))).
  - intros len. cbn. unfold BRANCH_SCALE. field. lra.
  - intros n len l1 l2 p h E1 E2. unfold activation.
    rewrite !forward_distances_app, !Rsum_app, E1, E2.
    cbn [forward_distances Rsum fold_right pow].
    unfold BRANCH_SCALE. field. lra.
Qed.

Lemma draw_fractal_tree_total_distance_witness :
  (0 <= 2)%Z /\ (Z.to_nat 2 < 3)%nat /\
  exists (t' : Turtle) (new : list Call),
    draw_fractal_tree 3 INITIAL_LENGTH 2 artist = Some (tt, t') /\
    calls t' = (new ++ calls artist)%list /\
    Rsum (forward_distances new) = 240.
Proof.
  assert (H1 : (0 <= 2)%Z) by lia.
  assert (H2 : (Z.to_nat 2 < 3)%nat) by (simpl; lia).
  split; [exact H1|]. split; [exact H2|].
  destruct (draw_fractal_tree_total_distance 3 INITIAL_LENGTH 2 artist H1 H2)
    as (t' & new & E & C & D).
  exists t', new. split; [exact E|]. split; [exact C|].
  rewrite D. change (Z.to_nat 2) with 2%nat. cbn [pow].
  unfold INITIAL_LENGTH, BRANCH_SCALE. lra.
Defined.

End DrawerExtras.

Section DrawerPen.

Import Turtle FractalTree.
Local Open Scope R_scope.

Lemma activation_drawing_moves (n : nat) (length : R) (p : R * R) (h : R)
    (l1 l2 : list Call) (pen0 : bool) :
  pen_facts n l1 -> pen_facts n l2 ->
  drawing_moves pen0 (activation length p h l1 l2) =
  (filter is_forward l2 ++ drawing_moves pen0 l1
   ++ (if pen0 then [Forward length] else []))%list.
Proof.
  intros (A1 & _ & _ & _) (A2 & _ & D2 & _). unfold activation.
  rewrite !drawing_moves_app, !pen_after_app.
  cbn [pen_after drawing_moves is_forward is_goto orb andb app].
  rewrite D2. destruct pen0; reflexivity.
Qed.

Lemma activation_forwards (length : R) (p : R * R) (h : R) (l1 l2 : list Call) :
  filter is_forward (activation length p h l1 l2) =
  (filter is_forward l2 ++ filter is_forward l1 ++ [Forward length])%list.
Proof. unfold activation. rewrite !filter_app. reflexivity. Qed.

Lemma activation_pen_facts (n : nat) (length : R) (p : R * R) (h : R)
    (l1 l2 : list Call) :
  pen_facts n l1 -> pen_facts n l2 ->
  pen_facts (S n) (activation length p h l1 l2).
Proof.
  intros F1 F2. pose proof F1 as (A1 & G1 & D1 & U1).
  pose proof F2 as (A2 & G2 & D2 & U2).
  split; [|split; [|split]].
  - intros pen0. reflexivity.
  - intros pen0. rewrite (activation_drawing_moves n) by assumption.
    rewrite !count_app.
    assert (H2 : count is_goto (filter is_forward l2) = O).
    { rewrite <- D2. apply G2. }
    rewrite H2, G1. destruct pen0; reflexivity.
  - rewrite (activation_drawing_moves n) by assumption.
    rewrite D1. symmetry. apply activation_forwards.
  - rewrite (activation_drawing_moves n) by assumption.
    unfold count at 2. rewrite activation_forwards.
    rewrite !count_app, !length_app.
    unfold count in U1 |- *. cbn [filter is_forward List.length].
    assert (H2 : filter is_forward (filter is_forward l2) = filter is_forward l2).
    { clear. induction l2 as [|c l IH]; [reflexivity|].
      cbn [filter]. destruct (is_forward c) eqn:E; cbn [filter]; rewrite ?E, IH;
        reflexivity. }
    rewrite H2. lia.
Qed.

Lemma draw_fractal_tree_pen (fuel : nat) (length : R) (depth : Z) (t : Turtle) :
  (0 <= depth)%Z -> (Z.to_nat depth < fuel)%nat ->
  exists (t' : Turtle) (new : list Call),
    draw_fractal_tree fuel length depth t = Some (tt, t') /\
    calls t' = (new ++ calls t)%list /\
    pen_facts (Z.to_nat depth) new.
Proof.
  apply (draw_fractal_tree_log (fun n _ new => pen_facts n new)).
  - intros _. split; [|split; [|split]]; reflexivity.
  - intros n len l1 l2 p h. apply activation_pen_facts.
Qed.

End DrawerPen.

Section DrawerExtrasPen.

Import Turtle FractalTree.
Local Open Scope R_scope.

(** Moves that leave a line and are no [goto] are [forward] calls. *)
Lemma drawing_moves_forwards_only (pen0 : bool) (log : list Call) :
  filter is_goto (drawing_moves pen0 log) = [] ->
  Forall (fun c => is_forward c = true) (drawing_moves pen0 log).
Proof.
  induction log as [|c log IH]; intros H0; [constructor|].
  cbn [drawing_moves] in *.
  destruct ((is_forward c || is_goto c) && pen_after pen0 log)%bool eqn:Eb.
  - cbn [filter] in H0. destruct (is_goto c) eqn:Eg; [discriminate|].
    constructor; [|apply IH, H0].
    rewrite orb_false_r in Eb. apply andb_prop in Eb. exact (proj1 Eb).
  - apply IH, H0.
Qed.

(** X4: every [forward] of a returning call at budget [depth >= 0] is of
    distance [length * 0.7^k] for a level [k] below [depth]; so none is
    longer than the first, of distance [length]. *)
Theorem draw_fractal_tree_branch_lengths
    (fuel : nat) (length : R) (depth : Z) (t : Turtle) :
  (0 <= depth)%Z -> (Z.to_nat depth < fuel)%nat ->
  exists (t' : Turtle) (new : list Call),
    draw_fractal_tree fuel length depth t = Some (tt, t') /\
    calls t' = (new ++ calls t)%list /\
    Forall (fun d =>
              (exists k : nat, (k < Z.to_nat depth)%nat /\
                               d = length * BRANCH_SCALE ^ k) /\
              Rabs d <= Rabs length)
           (forward_distances new).
Proof.
  assert (Hpow : forall k, 0 <= BRANCH_SCALE ^ k <= 1).
  { intros k. split.
    - apply pow_le. unfold BRANCH_SCALE. lra.
    - rewrite <- (pow1 k). apply pow_incr. unfold BRANCH_SCALE. lra. }
  assert (Hweak : forall n len ds,
             Forall (fun d => exists k : nat, (k < n)%nat /\
                                              d = len * BRANCH_SCALE ^ k) ds ->
             Forall (fun d =>
                       (exists k : nat, (k < n)%nat /\
                                        d = len * BRANCH_SCALE ^ k) /\
                       Rabs d <= Rabs len) ds).
  { intros n len ds H. apply Forall_impl with (2 := H).
    intros d (k & Hk & ->). split; [exists k; split; [exact Hk | reflexivity]|].
    rewrite Rabs_mult, (Rabs_pos_eq (BRANCH_SCALE ^ k)) by apply Hpow.
    rewrite <- (Rmult_1_r (Rabs len)) at 2.
    apply Rmult_le_compat_l; [apply Rabs_pos | apply Hpow]. }
  intros Hd Hf.
  destruct (draw_fractal_tree_log (fun n len new =>
              Forall (fun d => exists k : nat, (k < n)%nat /\
                                               d = len * BRANCH_SCALE ^ k)
                     (forward_distances new))) with (fuel := fuel)
      (length := length) (depth := depth) (t := t) as (t' & new & E & C & F).
  - intros len. constructor.
  - intros n len l1 l2 p h F1 F2. unfold activation.
    assert (Hstep : forall ds,
               Forall (fun d => exists k : nat, (k < n)%nat /\
                          d = len * BRANCH_SCALE * BRANCH_SCALE ^ k) ds ->
               Forall (fun d => exists k : nat, (k < S n)%nat /\
                          d = len * BRANCH_SCALE ^ k) ds).
    { intros ds H. apply Forall_impl with (2 := H).
      intros d (k & Hk & ->). exists (S k). split; [lia|].
      cbn [pow]. ring. }
    rewrite !forward_distances_app. cbn [forward_distances app].
    rewrite !Forall_app. split; [apply Hstep, F2|]. split; [apply Hstep, F1|].
    constructor; [|constructor]. exists O. split; [lia|]. cbn [pow]. ring.
  - exact Hd.
  - exact Hf.
  - exists t', new. split; [exact E|]. split; [exact C|]. apply Hweak, F.
Qed.

Lemma draw_fractal_tree_branch_lengths_witness :
  (0 <= 2)%Z /\ (Z.to_nat 2 < 3)%nat /\
  exists (t' : Turtle) (new : list Call),
    draw_fractal_tree 3 INITIAL_LENGTH 2 artist = Some (tt, t') /\
    calls t' = (new ++ calls artist)%list /\
    Forall (fun d =>
              (exists k : nat, (k < Z.to_nat 2)%nat /\
                               d = INITIAL_LENGTH * BRANCH_SCALE ^ k) /\
              Rabs d <= Rabs INITIAL_LENGTH)
           (forward_distances new).
Proof.
  assert (H1 : (0 <= 2)%Z) by lia.
  assert (H2 : (Z.to_nat 2 < 3)%nat) by (simpl; lia).
  split; [exact H1|]. split; [exact H2|].
  exact (draw_fractal_tree_branch_lengths 3 INITIAL_LENGTH 2 artist H1 H2).
Defined.

(** X5: no [goto] of a returning call leaves a line, whatever the pen was
    at entry: each one is made with the pen lifted. *)
Theorem draw_fractal_tree_goto_draws_nothing
    (fuel : nat) (length : R) (depth : Z) (t : Turtle) :
  (0 <= depth)%Z -> (Z.to_nat depth < fuel)%nat ->
  exists (t' : Turtle) (new : list Call),
    draw_fractal_tree fuel length depth t = Some (tt, t') /\
    calls t' = (new ++ calls t)%list /\
    filter is_goto (drawing_moves (isdown t) new) = [] /\
    Forall (fun c => is_forward c = true) (drawing_moves (isdown t) new).
Proof.
  intros Hd Hf.
  destruct (draw_fractal_tree_pen fuel length depth t Hd Hf)
    as (t' & new & E & C & (_ & G & _ & _)).
  exists t', new. split; [exact E|]. split; [exact C|].
  assert (H0 : filter is_goto (drawing_moves (isdown t) new) = []).
  { apply length_zero_iff_nil. apply (G (isdown t)). }
  split; [exact H0|]. apply drawing_moves_forwards_only, H0.
Qed.

Lemma draw_fractal_tree_goto_draws_nothing_witness :
  (0 <= 2)%Z /\ (Z.to_nat 2 < 3)%nat /\
  exists (t' : Turtle) (new : list Call),
    draw_fractal_tree 3 INITIAL_LENGTH 2 artist = Some (tt, t') /\
    calls t' = (new ++ calls artist)%list /\
    filter is_goto (drawing_moves (isdown artist) new) = [] /\
    Forall (fun c => is_forward c = true) (drawing_moves (isdown artist) new).
Proof.
  assert (H1 : (0 <= 2)%Z) by lia.
  assert (H2 : (Z.to_nat 2 < 3)%nat) by (simpl; lia).
  split; [exact H1|]. split; [exact H2|].
  exact (draw_fractal_tree_goto_draws_nothing 3 INITIAL_LENGTH 2 artist H1 H2).
Defined.

(** X6: entered with the pen down, a returning call at budget [depth >= 0]
    draws every one of its [2^depth - 1] branches; entered with the pen
    lifted it leaves [depth] of them undrawn (the first branch and the left
    branch of each level below it), since the pen is first put down at
    line 75. *)
Theorem draw_fractal_tree_branches_drawn
    (fuel : nat) (length : R) (depth : Z) (t : Turtle) :
  (0 <= depth)%Z -> (Z.to_nat depth < fuel)%nat ->
  exists (t' : Turtle) (new : list Call),
    draw_fractal_tree fuel length depth t = Some (tt, t') /\
    calls t' = (new ++ calls t)%list /\
    count is_forward (drawing_moves (isdown t) new) =
    if isdown t then (2 ^ Z.to_nat depth - 1)%nat
    else (2 ^ Z.to_nat depth - 1 - Z.to_nat depth)%nat.
Proof.
  intros Hd Hf.
  destruct (draw_fractal_tree_log (fun n _ new =>
              pen_facts n new /\ count is_forward new = (2 ^ n - 1)%nat))
    with (fuel := fuel) (length := length) (depth := depth) (t := t)
    as (t' & new & E & C & (_ & _ & D & U) & N).
  - intros _. split; [|reflexivity]. split; [|split; [|split]]; reflexivity.
  - intros n len l1 l2 p h (F1 & N1) (F2 & N2).
    split; [apply activation_pen_facts; assumption|].
    unfold count in *. rewrite activation_forwards, !length_app, N1, N2.
    pose proof (pow2_pos n). rewrite pow2_nat. cbn [List.length]. lia.
  - exact Hd.
  - exact Hf.
  - exists t', new. split; [exact E|]. split; [exact C|].
    destruct (isdown t).
    + rewrite D. unfold count in *.
      assert (H2 : filter is_forward (filter is_forward new) = filter is_forward new).
      { clear. induction new as [|c l IH]; [reflexivity|].
        cbn [filter]. destruct (is_forward c) eqn:Ec; cbn [filter];
          rewrite ?Ec, IH; reflexivity. }
      rewrite H2. exact N.
    + lia.
Qed.

Lemma draw_fractal_tree_branches_drawn_witness :
  (0 <= 2)%Z /\ (Z.to_nat 2 < 3)%nat /\
  exists (t' : Turtle) (new : list Call),
    draw_fractal_tree 3 INITIAL_LENGTH 2 (penup artist) = Some (tt, t') /\
    calls t' = (new ++ calls (penup artist))%list /\
    count is_forward (drawing_moves false new) = 1%nat.
Proof.
  assert (H1 : (0 <= 2)%Z) by lia.
  assert (H2 : (Z.to_nat 2 < 3)%nat) by (simpl; lia).
  split; [exact H1|]. split; [exact H2|].
  exact (draw_fractal_tree_branches_drawn 3 INITIAL_LENGTH 2 (penup artist) H1 H2).
Defined.

(** X7: a returning call at a budget of at least 1 leaves the pen down,
    also when it was entered with the pen lifted. *)
Theorem draw_fractal_tree_leaves_pen_down
    (fuel : nat) (length : R) (depth : Z) (t : Turtle) :
  (1 <= depth)%Z -> (Z.to_nat depth < fuel)%nat ->
  exists t' : Turtle,
    draw_fractal_tree fuel length depth t = Some (tt, t') /\
    isdown t' = true.
Proof.
  intros Hd Hf.
  destruct (draw_fractal_tree_returns fuel length depth t) as (t' & E & _);
    [lia | assumption |].
  exists t'. split; [assumption|].
  destruct (draw_fractal_tree_final fuel length depth t t') as (_ & _ & Hp);
    [lia | assumption | exact Hp].
Qed.

Lemma draw_fractal_tree_leaves_pen_down_witness :
  (1 <= 1)%Z /\ (Z.to_nat 1 < 2)%nat /\ isdown (penup artist) = false /\
  exists t' : Turtle,
    draw_fractal_tree 2 INITIAL_LENGTH 1 (penup artist) = Some (tt, t') /\
    isdown t' = true.
Proof.
  assert (H1 : (1 <= 1)%Z) by lia.
  assert (H2 : (Z.to_nat 1 < 2)%nat) by (simpl; lia).
  split; [exact H1|]. split; [exact H2|]. split; [reflexivity|].
  exact (draw_fractal_tree_leaves_pen_down 2 INITIAL_LENGTH 1 (penup artist) H1 H2).
Defined.

End DrawerExtrasPen.

Section DrawerSiblings.

Import Turtle FractalTree.
Local Open Scope R_scope.




End DrawerSiblings.

(* ===================================================================== *)
(** * Further properties of the pattern-grid renderer *)
(* ===================================================================== *)


Section FileNames.

Import PatternGrid.
Local Open Scope string_scope.

Lemma string_length_append (a b : string) :
  String.length (a ++ b) = (String.length a + String.length b)%nat.
Proof. induction a as [|c a IH]; cbn; [reflexivity | rewrite IH; reflexivity]. Qed.

Lemma string_append_cancel_r (a b c : string) : a ++ c = b ++ c -> a = b.
Proof.
  revert b. induction a as [|x a IH]; intros [|y b] E.
  - reflexivity.
  - exfalso. apply (f_equal String.length) in E.
    cbn in E. rewrite string_length_append in E. lia.
  - exfalso. apply (f_equal String.length) in E.
    cbn in E. rewrite string_length_append in E. lia.
  - cbn in E. injection E as -> E. f_equal. apply IH, E.
Qed.

Lemma digits_value_zeros (n : nat) (s : string) :
  digits_value (zeros n ++ s) = digits_value s.
Proof.
  unfold digits_value. induction n as [|n IH]; [reflexivity|].
  cbn [zeros append NilEmpty.uint_of_string].
  destruct (NilEmpty.uint_of_string (zeros n ++ s)) as [d|];
    destruct (NilEmpty.uint_of_string s) as [d'|]; cbn in *;
    try discriminate; try reflexivity.
  exact IH.
Qed.

Lemma str_pos (p : positive) :
  str (Z.pos p) = NilEmpty.string_of_uint (Pos.to_uint p).
Proof.
  unfold str. cbn [Z.to_int NilZero.string_of_int].
  pose proof (Unsigned.to_uint_nonnil p) as H.
  destruct (Pos.to_uint p); [contradiction | reflexivity ..].
Qed.

Lemma digits_value_str_pos (p : positive) :
  digits_value (str (Z.pos p)) = Some (Z.pos p).
Proof.
  rewrite str_pos. unfold digits_value. rewrite NilEmpty.usu. cbn [option_map].
  unfold Z.of_uint. rewrite Unsigned.of_to. reflexivity.
Qed.

(** On the digits of a positive number [zfill] only adds zeros in front. *)
Lemma zfill_str_pos (width : nat) (p : positive) :
  zfill width (str (Z.pos p)) =
  zeros (width - String.length (str (Z.pos p))) ++ str (Z.pos p).
Proof.
  rewrite str_pos. pose proof (Unsigned.to_uint_nonnil p) as H.
  destruct (Pos.to_uint p); [contradiction | reflexivity ..].
Qed.

Lemma digits_value_zfill (width : nat) (p : positive) :
  digits_value (zfill width (str (Z.pos p))) = Some (Z.pos p).
Proof. rewrite zfill_str_pos, digits_value_zeros. apply digits_value_str_pos. Qed.

Lemma In_range (n m : Z) : In n (range m) <-> (0 <= n < m)%Z.
Proof.
  unfold range. rewrite in_map_iff. split.
  - intros (k & <- & Hk). apply in_seq in Hk. lia.
  - intros H. exists (Z.to_nat n). split; [lia|]. apply in_seq. lia.
Qed.

(** X12: the time factor of line 130 is at least 0 and below 1 for every
    frame of the loop, and grows strictly from one frame to the next: a
    later frame never repeats the time of an earlier one. *)
Theorem time_factor_increasing (frame_num later : Z) :
  (0 <= frame_num)%Z -> (frame_num < later)%Z -> (later < num_frames)%Z ->
  (0 <= time_factor_of frame_num)%Q /\
  (time_factor_of frame_num < time_factor_of later)%Q /\
  (time_factor_of later < 1)%Q.
Proof.
  unfold num_frames, time_factor_of. intros H0 H1 H2.
  unfold Qle, Qlt; simpl. lia.
Qed.

Lemma time_factor_increasing_witness :
  (0 <= 0)%Z /\ (0 < 59)%Z /\ (59 < num_frames)%Z /\
  (0 <= time_factor_of 0)%Q /\
  (time_factor_of 0 < time_factor_of 59)%Q /\
  (time_factor_of 59 < 1)%Q.
Proof.
  assert (H0 : (0 <= 0)%Z) by lia.
  assert (H1 : (0 < 59)%Z) by lia.
  assert (H2 : (59 < num_frames)%Z) by (unfold num_frames; lia).
  split; [exact H0|]. split; [exact H1|]. split; [exact H2|].
  exact (time_factor_increasing 0 59 H0 H1 H2).
Defined.

(** X13: the file name of line 137 tells the frames apart whatever their
    number: two frame numbers that are not negative and get the same name
    are equal, also beyond 999 frames, where the index outgrows its three
    digits. *)
Theorem output_filename_of_injective (n m : Z) :
  (0 <= n)%Z -> (0 <= m)%Z ->
  output_filename_of n = output_filename_of m -> n = m.
Proof.
  intros Hn Hm E. unfold output_filename_of, output_filename_base in E.
  cbn [append] in E. injection E as E.
  apply string_append_cancel_r in E.
  apply (f_equal digits_value) in E.
  destruct (n + 1)%Z as [|p|p] eqn:En; try lia.
  destruct (m + 1)%Z as [|q|q] eqn:Em; try lia.
  rewrite !digits_value_zfill in E. injection E as E. lia.
Qed.

Lemma output_filename_of_injective_witness :
  (0 <= 5)%Z /\ (0 <= 2 + 3)%Z /\
  output_filename_of 5 = output_filename_of (2 + 3) /\ 5%Z = (2 + 3)%Z.
Proof.
  assert (H0 : (0 <= 5)%Z) by lia.
  assert (H1 : (0 <= 2 + 3)%Z) by lia.
  assert (E : output_filename_of 5 = output_filename_of (2 + 3)) by reflexivity.
  split; [exact H0|]. split; [exact H1|]. split; [exact E|].
  exact (output_filename_of_injective 5 (2 + 3) H0 H1 E).
Defined.

(** X14: up to frame number 998 every file name has the same 20 characters'
    length, the index taking exactly three; [zfill] never cuts, so frame
    number 999 gets the longer name [pattern_grid_1000.png]. *)
Theorem output_filename_of_width :
  (forall n : Z, (0 <= n <= 998)%Z ->
     String.length (output_filename_of n) = 20%nat /\
     String.length (zfill 3 (str (n + 1))) = 3%nat) /\
  output_filename_of 999 = "pattern_grid_1000.png".
Proof.
  split; [|reflexivity].
  assert (H : forallb (fun n =>
                (String.length (output_filename_of n) =? 20)%nat
                && (String.length (zfill 3 (str (n + 1))) =? 3)%nat)
              (range 999) = true) by (vm_compute; reflexivity).
  rewrite forallb_forall in H.
  intros n Hn. specialize (H n (proj2 (In_range n 999) ltac:(lia))).
  apply andb_prop in H. destruct H as [Ha Hb].
  apply Nat.eqb_eq in Ha. apply Nat.eqb_eq in Hb. split; assumption.
Qed.

Lemma output_filename_of_width_witness :
  (0 <= 59 <= 998)%Z /\
  String.length (output_filename_of 59) = 20%nat /\
  String.length (zfill 3 (str (59 + 1))) = 3%nat.
Proof.
  assert (H : (0 <= 59 <= 998)%Z) by lia.
  split; [exact H|]. exact (proj1 output_filename_of_width 59%Z H).
Defined.

End FileNames.

Section GridExtras.

Import PatternGrid.
Local Open Scope Q_scope.
Local Open Scope string_scope.


(** X16: in a module that binds [math] to a module whose sine and cosine
    stay between -1 and 1, [get_pattern_value] returns a value between 0 and
    1 for every row and column that a float holds exactly (up to [2^53] in
    magnitude, the cells of the grid among them) and every time. *)
Theorem get_pattern_value_in_unit_interval (m : MathModule) (globals : Namespace)
    (row col : Z) (time_factor : Q) :
  (forall x : Q, -1 <= math_sin m x <= 1) ->
  (forall x : Q, -1 <= math_cos m x <= 1) ->
  (Z.abs row <= 2 ^ 53)%Z -> (Z.abs col <= 2 ^ 53)%Z ->
  exists v : Q,
    get_pattern_value (with_math m globals) row col time_factor = Ok v /\
    0 <= v <= 1.
Proof. intros Hs Hc _ _. apply get_pattern_value_with_math_range; assumption. Qed.

Lemma get_pattern_value_in_unit_interval_witness :
  (forall x : Q, -1 <= math_sin clipped_math x <= 1) /\
  (forall x : Q, -1 <= math_cos clipped_math x <= 1) /\
  (Z.abs 3 <= 2 ^ 53)%Z /\ (Z.abs 5 <= 2 ^ 53)%Z /\
  exists v : Q,
    get_pattern_value (with_math clipped_math module_globals) 3 5 0.25 = Ok v /\
    0 <= v <= 1.
Proof.
  assert (H3 : (Z.abs 3 <= 2 ^ 53)%Z) by (vm_compute; discriminate).
  assert (H5 : (Z.abs 5 <= 2 ^ 53)%Z) by (vm_compute; discriminate).
  split; [exact (proj1 clipped_math_range)|].
  split; [exact (proj2 clipped_math_range)|].
  split; [exact H3|]. split; [exact H5|].
  exact (get_pattern_value_in_unit_interval clipped_math module_globals 3 5 0.25
           (proj1 clipped_math_range) (proj2 clipped_math_range) H3 H5).
Defined.

(** A loop whose body always returns is a left fold. *)
Lemma for_each_fold {A S : Type} (body : A -> S -> result S) (g : A -> S -> S) :
  (forall x s, body x s = Ok (g x s)) ->
  forall xs s, for_each xs body s = Ok (fold_left (fun s x => g x s) xs s).
Proof.
  intros Hb xs. induction xs as [|x xs IH]; intros s; cbn [for_each fold_left].
  - reflexivity.
  - rewrite Hb. apply IH.
Qed.

(** Painting one rectangle per element of a list. *)
Lemma paint_fold {A : Type} (box : A -> Z * Z * Z * Z) (color : A -> Color)
    (xs : list A) :
  forall image : Image,
    let image' := fold_left (fun im x => rectangle (box x) (color x) im) xs image in
    size image' = size image /\ fill image' = fill image /\
    rectangles image' =
    (rev (map (fun x => (box x, color x)) xs) ++ rectangles image)%list.
Proof.
  induction xs as [|x xs IH]; intros image; cbn [fold_left map rev].
  - repeat split.
  - destruct (IH (rectangle (box x) (color x) image)) as (Hs & Hf & Hr).
    cbv zeta. rewrite Hs, Hf, Hr. cbn [rectangle size fill rectangles].
    rewrite <- app_assoc. repeat split.
Qed.

Lemma map_list_prod {A B C : Type} (f : A * B -> C) (xs : list A) (ys : list B) :
  map f (list_prod xs ys) = flat_map (fun x => map (fun y => f (x, y)) ys) xs.
Proof.
  induction xs as [|x xs IH]; cbn [list_prod flat_map]; [reflexivity|].
  rewrite map_app, map_map, IH. reflexivity.
Qed.

(** The value [get_pattern_value] returns once [math] is bound. *)
Lemma get_pattern_value_returns (m : MathModule) (globals : Namespace)
    (time_factor : Q) :
  exists value : Z -> Z -> Q,
    forall row col,
      get_pattern_value (with_math m globals) row col time_factor
      = Ok (value row col).
Proof.
  eexists (fun row col => _). intros row col.
  rewrite get_pattern_value_with_math. cbv zeta. reflexivity.
Qed.

(** What [draw_grid_pattern] does to an image once [math] is bound. *)
Lemma draw_grid_pattern_painted (m : MathModule) (globals : Namespace)
    (image : Image) (time_factor : Q) :
  exists (image' : Image) (value : Z -> Z -> Q),
    draw_grid_pattern (with_math m globals) image time_factor = Ok image' /\
    (forall row col,
       get_pattern_value (with_math m globals) row col time_factor
       = Ok (value row col)) /\
    size image' = size image /\ fill image' = fill image /\
    rectangles image' =
    (rev (map (fun cell => (cell_box (fst cell) (snd cell),
                            map_value_to_color (value (fst cell) (snd cell))))
              grid_cells)
     ++ rectangles image)%list.
Proof.
  destruct (get_pattern_value_returns m globals time_factor) as (value & Hv).
  set (paint := fun (cell : Z * Z) =>
                  (cell_box (fst cell) (snd cell),
                   map_value_to_color (value (fst cell) (snd cell)))).
  set (paint_row := fun (row : Z) (im : Image) =>
         fold_left (fun im col => rectangle (cell_box row col)
                      (map_value_to_color (value row col)) im)
           (range GRID_SIZE) im).
  assert (Hrow : forall row im,
             for_each (range GRID_SIZE) (fun col image =>
               (pattern_val <- get_pattern_value (with_math m globals) row col
                                 time_factor ;;
                let cell_color := map_value_to_color pattern_val in
                let x1 := (col * CELL_SIZE)%Z in
                let y1 := (row * CELL_SIZE)%Z in
                let x2 := (x1 + CELL_SIZE)%Z in
                let y2 := (y1 + CELL_SIZE)%Z in
                Ok (rectangle (x1, y1, x2, y2) cell_color image))%result) im
             = Ok (paint_row row im)).
  { intros row im. apply for_each_fold. intros col s. rewrite Hv. reflexivity. }
  assert (Hall : draw_grid_pattern (with_math m globals) image time_factor
                 = Ok (fold_left (fun im row => paint_row row im)
                         (range GRID_SIZE) image)).
  { unfold draw_grid_pattern. apply for_each_fold. exact Hrow. }
  exists (fold_left (fun im row => paint_row row im) (range GRID_SIZE) image), value.
  split; [exact Hall|]. split; [exact Hv|]. clear Hall.
  unfold grid_cells. rewrite (map_list_prod paint).
  assert (Hgen : forall rows im,
             size (fold_left (fun im row => paint_row row im) rows im) = size im /\
             fill (fold_left (fun im row => paint_row row im) rows im) = fill im /\
             rectangles (fold_left (fun im row => paint_row row im) rows im) =
             (rev (flat_map (fun x => map (fun y => paint (x, y)) (range GRID_SIZE))
                     rows)
              ++ rectangles im)%list).
  { intros rows. induction rows as [|row rows IH]; intros im;
      cbn [fold_left flat_map rev].
    - repeat split.
    - destruct (IH (paint_row row im)) as (Hs & Hf & Hr).
      destruct (paint_fold (cell_box row)
                  (fun col => map_value_to_color (value row col))
                  (range GRID_SIZE) im) as (Hs' & Hf' & Hr').
      fold (paint_row row im) in Hs', Hf', Hr'.
      rewrite Hs, Hf, Hr, Hs', Hf', Hr'. split; [reflexivity|].
      split; [reflexivity|].
      rewrite rev_app_distr, <- app_assoc. reflexivity. }
  apply Hgen.
Qed.

End GridExtras.

Section DriverExtras.

Import PatternGrid.
Local Open Scope Q_scope.
Local Open Scope string_scope.

Lemma grid_cells_length : List.length grid_cells = 256%nat.
Proof. reflexivity. Qed.

Lemma In_grid_cells (cell : Z * Z) :
  In cell grid_cells ->
  (0 <= fst cell < GRID_SIZE)%Z /\ (0 <= snd cell < GRID_SIZE)%Z.
Proof.
  destruct cell as [row col]. unfold grid_cells. rewrite in_prod_iff.
  rewrite !In_range. cbn [fst snd]. tauto.
Qed.

(** X17: in a module that binds [math] to a module whose sine and cosine
    stay between -1 and 1, [draw_grid_pattern] returns, having painted one
    rectangle for each of the 256 cells, row after row and column after
    column within a row; each rectangle is a box of 30 by 30 with corners
    between 0 and the image's width and height, each colour has its channels
    between 0 and 255, and the image keeps its size and what was painted
    before. *)
Theorem draw_grid_pattern_paints_every_cell (m : MathModule) (globals : Namespace)
    (image : Image) (time_factor : Q) :
  (forall x : Q, -1 <= math_sin m x <= 1) ->
  (forall x : Q, -1 <= math_cos m x <= 1) ->
  exists (image' : Image) (new : list (Z * Z * Z * Z * Color)),
    draw_grid_pattern (with_math m globals) image time_factor = Ok image' /\
    size image' = size image /\ fill image' = fill image /\
    rectangles image' = (new ++ rectangles image)%list /\
    map fst (rev new)
    = map (fun cell => cell_box (fst cell) (snd cell)) grid_cells /\
    List.length new = 256%nat /\
    Forall (fun rect =>
              let '(x1, y1, x2, y2, color) := rect in
              (0 <= x1 /\ x2 = x1 + CELL_SIZE /\ x2 <= IMAGE_WIDTH)%Z /\
              (0 <= y1 /\ y2 = y1 + CELL_SIZE /\ y2 <= IMAGE_HEIGHT)%Z /\
              (0 <= ch0 color <= 255)%Z /\ (0 <= ch1 color <= 255)%Z /\
              (0 <= ch2 color <= 255)%Z)
           new.
Proof.
  intros _ _.
  destruct (draw_grid_pattern_painted m globals image time_factor)
    as (image' & value & E & Hv & Hs & Hf & Hr).
  exists image'.
  eexists. split; [exact E|]. split; [exact Hs|].
  split; [exact Hf|]. split; [exact Hr|].
  split; [rewrite rev_involutive, map_map; reflexivity|].
  split; [rewrite length_rev, length_map; apply grid_cells_length|].
  apply Forall_rev. apply Forall_map. apply Forall_forall.
  intros [row col] Hin. apply In_grid_cells in Hin. cbn [fst snd] in *.
  unfold cell_box, IMAGE_WIDTH, IMAGE_HEIGHT, GRID_SIZE, CELL_SIZE in *.
  rewrite map_value_to_color_eq.
  pose proof (clamp_range (ch0 (interpolate (value row col)))).
  pose proof (clamp_range (ch1 (interpolate (value row col)))).
  pose proof (clamp_range (ch2 (interpolate (value row col)))).
  unfold ch0, ch1, ch2 in *. cbn [fst snd] in *.
  repeat split; lia.
Qed.

Lemma draw_grid_pattern_paints_every_cell_witness :
  (forall x : Q, -1 <= math_sin clipped_math x <= 1) /\
  (forall x : Q, -1 <= math_cos clipped_math x <= 1) /\
  exists (image' : Image) (new : list (Z * Z * Z * Z * Color)),
    draw_grid_pattern (with_math clipped_math module_globals)
      (Image_new (IMAGE_WIDTH, IMAGE_HEIGHT) BACKGROUND_COLOR) 0 = Ok image' /\
    rectangles image' = (new ++ [])%list /\
    List.length new = 256%nat.
Proof.
  split; [exact (proj1 clipped_math_range)|].
  split; [exact (proj2 clipped_math_range)|].
  destruct (draw_grid_pattern_paints_every_cell clipped_math module_globals
              (Image_new (IMAGE_WIDTH, IMAGE_HEIGHT) BACKGROUND_COLOR) 0
              (proj1 clipped_math_range) (proj2 clipped_math_range))
    as (image' & new & E & _ & _ & Hr & _ & Hn & _).
  exists image', new. split; [exact E|]. split; [exact Hr | exact Hn].
Defined.

(** What the loop saves and prints once [math] is bound. *)
Lemma frames_with_math_saved (m : MathModule) (globals : Namespace)
    (frame_nums : list Z) :
  forall w : World,
  exists (w' : World) (saved : list (string * Image)),
    frames (with_math m globals) frame_nums w = (Ok tt, w') /\
    files w' = (files w ++ saved)%list /\
    map fst saved = map output_filename_of frame_nums /\
    Forall (fun f => size (snd f) = (IMAGE_WIDTH, IMAGE_HEIGHT) /\
                     fill (snd f) = BACKGROUND_COLOR /\
                     List.length (rectangles (snd f)) = 256%nat) saved /\
    stdout w' = (stdout w
                 ++ map (fun n => ("Saved " ++ output_filename_of n)%string)
                        frame_nums)%list.
Proof.
  induction frame_nums as [|n rest IH]; intros w; cbn [frames].
  - exists w, []. split; [reflexivity|]. cbn [map]. rewrite !app_nil_r.
    repeat split. constructor.
  - unfold frame.
    destruct (draw_grid_pattern_painted m globals
                (Image_new (IMAGE_WIDTH, IMAGE_HEIGHT) BACKGROUND_COLOR)
                (time_factor_of n)) as (image' & value & E & _ & Hs & Hf & Hr).
    rewrite E. cbv zeta.
    destruct (IH (print ("Saved " ++ output_filename_of n)
                    (save image' (output_filename_of n) w)))
      as (w' & saved & E' & F' & N' & I' & O').
    exists w', ((output_filename_of n, image') :: saved).
    split; [exact E'|]. split.
    { rewrite F'. cbn [files print save]. rewrite <- app_assoc. reflexivity. }
    split. { cbn [map fst]. rewrite N'. reflexivity. }
    split.
    { constructor; [|exact I']. cbn [snd]. rewrite Hs, Hf, Hr.
      cbn [Image_new size fill rectangles]. rewrite app_nil_r.
      rewrite length_rev, length_map. repeat split. }
    rewrite O'. cbn [stdout print save map]. rewrite <- app_assoc. reflexivity.
Qed.

(** X18: with [math] bound in the module's globals to a module whose sine
    and cosine stay between -1 and 1, the block under [__main__] runs to its
    end: it saves 60 files, named apart, from [pattern_grid_001.png] to
    [pattern_grid_060.png] in the order of the frames, each one an image of
    480 by 480 created white and painted with 256 rectangles; it calls
    [print] 64 times, which makes 65 lines, the string of line 143 starting
    with a newline. *)
Theorem main_completes_with_math (m : MathModule) :
  (forall x : Q, -1 <= math_sin m x <= 1) ->
  (forall x : Q, -1 <= math_cos m x <= 1) ->
  exists w : World,
    main (with_math m module_globals) empty_world = (Ok tt, w) /\
    map fst (files w) = map output_filename_of (range num_frames) /\
    nth_error (map fst (files w)) 0 = Some "pattern_grid_001.png" /\
    nth_error (map fst (files w)) 59 = Some "pattern_grid_060.png" /\
    List.length (files w) = 60%nat /\
    NoDup (map fst (files w)) /\
    Forall (fun f => size (snd f) = (480, 480)%Z /\
                     fill (snd f) = (255, 255, 255)%Z /\
                     List.length (rectangles (snd f)) = 256%nat) (files w) /\
    List.length (stdout w) = 64%nat /\
    lines_printed w = 65%nat.
Proof.
  intros _ _. unfold main.
  destruct (frames_with_math_saved m module_globals (range num_frames)
              (print ("Generating " ++ str num_frames
                      ++ " frames of evolving patterns...") empty_world))
    as (w & saved & E & F & N & I & O).
  rewrite E. eexists. split; [reflexivity|].
  unfold lines_printed.
  cbn [files stdout print empty_world app] in *.
  rewrite F.
  split; [exact N|]. rewrite N.
  split; [rewrite output_filenames; reflexivity|].
  split; [rewrite output_filenames; reflexivity|].
  split; [rewrite <- (length_map fst), N, length_map; reflexivity|].
  split; [apply output_filenames_distinct|].
  split; [exact I|].
  rewrite O. split.
  - rewrite !length_app. cbn [List.length]. rewrite length_map. reflexivity.
  - vm_compute. reflexivity.
Qed.

Lemma main_completes_with_math_witness :
  (forall x : Q, -1 <= math_sin clipped_math x <= 1) /\
  (forall x : Q, -1 <= math_cos clipped_math x <= 1) /\
  exists w : World,
    main (with_math clipped_math module_globals) empty_world = (Ok tt, w) /\
    List.length (files w) = 60%nat /\
    lines_printed w = 65%nat.
Proof.
  split; [exact (proj1 clipped_math_range)|].
  split; [exact (proj2 clipped_math_range)|].
  destruct (main_completes_with_math clipped_math
              (proj1 clipped_math_range) (proj2 clipped_math_range))
    as (w & E & _ & _ & _ & Hl & _ & _ & _ & Hp).
  exists w. split; [exact E|]. split; [exact Hl | exact Hp].
Defined.

End DriverExtras.

(* ===================================================================== *)
(** * Properties of the colour mapper on floats *)
(* ===================================================================== *)

Section FloatFacts.

Import Binary64.
Local Open Scope Q_scope.

Lemma pow2Q_pos (e : Z) : 0 < pow2 e.
Proof. apply Qpower_0_lt. reflexivity. Qed.

Lemma pow2Q_add (a b : Z) : pow2 (a + b) == pow2 a * pow2 b.
Proof. apply Qpower_plus. discriminate. Qed.

Lemma pow2Q_le (a b : Z) : (a <= b)%Z -> pow2 a <= pow2 b.
Proof. intros H. apply Qpower_le_compat_l; [exact H | discriminate]. Qed.

Lemma pow2Q_inject (n : Z) : (0 <= n)%Z -> inject_Z (2 ^ n) == pow2 n.
Proof. intros H. apply Zpower_Qpower, H. Qed.

(** The exponent found is not too small. *)
Lemma ilog2_upper (m : Q) : 0 < m -> m < pow2 (ilog2 m + 1).
Proof.
  intros Hm. unfold ilog2.
  set (l := (Z.log2 (Qnum m) - Z.log2 (Z.pos (Qden m)))%Z).
  destruct (Qle_bool (pow2 l) m) eqn:E.
  - destruct m as [a b]. cbn [Qnum Qden] in l.
    assert (Ha : (0 < a)%Z) by (unfold Qlt in Hm; simpl in Hm; lia).
    pose proof (Z.log2_spec a Ha) as [_ Hau].
    pose proof (Z.log2_spec (Z.pos b) (Pos2Z.is_pos b)) as [Hbl _].
    pose proof (Z.log2_nonneg a) as Hla.
    pose proof (Z.log2_nonneg (Z.pos b)) as Hlb.
    assert (H1 : inject_Z a < pow2 (Z.log2 a + 1)).
    { rewrite <- pow2Q_inject by lia. rewrite <- Zlt_Qlt.
      replace (Z.log2 a + 1)%Z with (Z.succ (Z.log2 a)) by lia. exact Hau. }
    assert (H2 : pow2 (Z.log2 (Z.pos b)) <= inject_Z (Z.pos b)).
    { rewrite <- pow2Q_inject by lia. rewrite <- Zle_Qle. exact Hbl. }
    assert (H3 : pow2 (Z.log2 a + 1) == pow2 (l + 1) * pow2 (Z.log2 (Z.pos b))).
    { rewrite <- pow2Q_add. unfold l. apply Qpower_comp; [reflexivity | lia]. }
    rewrite (Qmake_Qdiv a b).
    apply Qlt_shift_div_r; [reflexivity|].
    apply Qlt_le_trans with (pow2 (Z.log2 a + 1)); [exact H1|].
    rewrite H3. apply Qmult_le_l; [apply pow2Q_pos | exact H2].
  - replace (l - 1 + 1)%Z with l by lia.
    apply Qnot_le_lt. intros H. apply Qle_bool_iff in H. congruence.
Qed.

Lemma round_half_even_upper (y : Q) :
  inject_Z (round_half_even y) <= y + (1 # 2).
Proof.
  unfold round_half_even. pose proof (Qfloor_le y) as Hf.
  destruct (Qcompare_spec (y - inject_Z (Qfloor y)) (1 # 2)) as [E|L|G].
  - destruct (Z.even (Qfloor y)); [lra|].
    rewrite inject_Z_plus. change (inject_Z 1) with 1. lra.
  - lra.
  - rewrite inject_Z_plus. change (inject_Z 1) with 1. lra.
Qed.

Lemma round_half_even_nonneg (y : Q) : 0 <= y -> (0 <= round_half_even y)%Z.
Proof.
  intros Hy. unfold round_half_even.
  assert (Hf : (0 <= Qfloor y)%Z).
  { change 0%Z with (Qfloor 0). apply Qfloor_resp_le, Hy. }
  destruct (Qcompare (y - inject_Z (Qfloor y)) (1 # 2));
    [destruct (Z.even (Qfloor y))| |]; lia.
Qed.

End FloatFacts.

Section FloatRounding.

Import Binary64.
Local Open Scope Q_scope.

Lemma threshold_above_2_1023 : pow2 1023 < overflow_threshold.
Proof. vm_compute. reflexivity. Qed.

Lemma threshold_below_2_1024 : overflow_threshold < pow2 1024.
Proof. vm_compute. reflexivity. Qed.

Lemma threshold_split : overflow_threshold == (pow2 53 - (1 # 2)) * pow2 971.
Proof. vm_compute. reflexivity. Qed.

Lemma largest_double_below_threshold :
  inject_Z (2 ^ 53 - 1) * pow2 971 < overflow_threshold.
Proof. vm_compute. reflexivity. Qed.

(** Below the overflow threshold a magnitude rounds to a magnitude below
    it: the result is a finite double. *)
Lemma round_magnitude_bound (m : Q) :
  0 < m -> m < overflow_threshold ->
  0 <= round_magnitude m /\ round_magnitude m < overflow_threshold.
Proof.
  intros Hm HB. unfold round_magnitude.
  set (e := Z.min 1023 (Z.max (ilog2 m) (-1022))).
  set (q := pow2 (e - 52)).
  assert (Hq : 0 < q) by apply pow2Q_pos.
  assert (He : (e <= 1023)%Z) by (unfold e; lia).
  assert (HA : m < pow2 (e + 1)).
  { destruct (Z.le_gt_cases (Z.max (ilog2 m) (-1022)) 1023) as [Hle|Hgt].
    - apply Qlt_le_trans with (pow2 (ilog2 m + 1)); [apply ilog2_upper, Hm|].
      apply pow2Q_le. unfold e. lia.
    - replace e with 1023%Z by (unfold e; lia).
      apply Qlt_trans with overflow_threshold;
        [exact HB | exact threshold_below_2_1024]. }
  assert (Hsplit : pow2 (e + 1) == pow2 53 * q).
  { unfold q. rewrite <- pow2Q_add. apply Qpower_comp; [reflexivity | lia]. }
  set (y := m / q).
  assert (Hy0 : 0 <= y).
  { unfold y. apply Qle_shift_div_l; [exact Hq|]. rewrite Qmult_0_l.
    apply Qlt_le_weak, Hm. }
  assert (Hy : y < pow2 53).
  { unfold y. apply Qlt_shift_div_r; [exact Hq|]. rewrite <- Hsplit. exact HA. }
  pose proof (round_half_even_upper y) as Hn.
  pose proof (round_half_even_nonneg y Hy0) as Hn0.
  set (n := round_half_even y) in *.
  split.
  - apply Qmult_le_0_compat; [|apply Qlt_le_weak, Hq].
    rewrite Zle_Qle in Hn0. exact Hn0.
  - assert (H53 : pow2 53 == inject_Z (2 ^ 53)) by (vm_compute; reflexivity).
    destruct (Z.eq_dec e 1023) as [E|E].
    + assert (Hq' : q == pow2 971).
      { unfold q. apply Qpower_comp; [reflexivity | lia]. }
      assert (Hy' : y < pow2 53 - (1 # 2)).
      { unfold y. apply Qlt_shift_div_r; [exact Hq|].
        rewrite Hq', <- threshold_split. exact HB. }
      assert (Hn' : (n <= 2 ^ 53 - 1)%Z).
      { assert (Hlt : (n < 2 ^ 53)%Z).
        { rewrite Zlt_Qlt, <- H53. lra. }
        lia. }
      apply Qle_lt_trans with (inject_Z (2 ^ 53 - 1) * pow2 971);
        [|exact largest_double_below_threshold].
      rewrite Hq'. apply Qmult_le_compat_r;
        [rewrite <- Zle_Qle; exact Hn' | apply Qlt_le_weak, pow2Q_pos].
    + assert (Hn' : (n <= 2 ^ 53)%Z).
      { assert (Hlt : (n < 2 ^ 53 + 1)%Z).
        { rewrite Zlt_Qlt, inject_Z_plus, <- H53. change (inject_Z 1) with 1. lra. }
        lia. }
      apply Qle_lt_trans with (pow2 1023); [|exact threshold_above_2_1023].
      apply Qle_trans with (pow2 (e + 1)); [|apply pow2Q_le; lia].
      rewrite Hsplit, H53. apply Qmult_le_compat_r;
        [rewrite <- Zle_Qle; exact Hn' | apply Qlt_le_weak, Hq].
Qed.

Lemma round_finite_bound (x : Q) :
  Qabs x < overflow_threshold -> Qabs (round_finite x) < overflow_threshold.
Proof.
  intros HB. unfold round_finite. destruct x as [a b].
  destruct a as [|a|a]; cbn [Qnum].
  - vm_compute. reflexivity.
  - assert (Hpos : 0 < Z.pos a # b) by reflexivity.
    rewrite Qabs_pos in HB by (apply Qlt_le_weak, Hpos).
    destruct (round_magnitude_bound _ Hpos HB) as [H0 H1].
    rewrite Qabs_pos by exact H0. exact H1.
  - assert (Hpos : 0 < - (Z.neg a # b)) by reflexivity.
    assert (HB' : - (Z.neg a # b) < overflow_threshold).
    { rewrite Qabs_neg in HB by discriminate. exact HB. }
    destruct (round_magnitude_bound _ Hpos HB') as [H0 H1].
    rewrite Qabs_opp, Qabs_pos by exact H0. exact H1.
Qed.

(** An exact result is rounded to a finite float exactly below the
    threshold. *)
Lemma of_Q_finite (x : Q) :
  Qabs x < overflow_threshold ->
  of_Q x = Finite (round_finite x) /\
  Qabs (round_finite x) < overflow_threshold.
Proof.
  intros HB. unfold of_Q.
  destruct (Qle_bool overflow_threshold (Qabs x)) eqn:E.
  - apply Qle_bool_iff in E. exfalso. apply (Qlt_irrefl (Qabs x)).
    apply Qlt_le_trans with overflow_threshold; assumption.
  - split; [reflexivity | apply round_finite_bound, HB].
Qed.

Lemma of_Q_overflow (x : Q) :
  overflow_threshold <= Qabs x -> of_Q x = Inf (is_negative x).
Proof.
  intros HB. unfold of_Q. apply Qle_bool_iff in HB. rewrite HB. reflexivity.
Qed.

End FloatRounding.

Section FloatColor.

Import Binary64 PatternGrid.
Local Open Scope Q_scope.

(** The factors of the interpolation are doubles. *)
Lemma of_int_factor (k : Z) :
  k = 100%Z \/ k = 255%Z ->
  exists k' : Q,
    of_int (k - 0) = Ok (Finite k') /\ k' == inject_Z k /\ is_zero k' = false.
Proof.
  intros [-> | ->]; eexists; (split; [vm_compute; reflexivity|]);
    split; vm_compute; reflexivity.
Qed.

Lemma of_int_zero : of_int 0 = Ok (Finite 0).
Proof. vm_compute. reflexivity. Qed.

Lemma channel_nan (k : Z) :
  k = 100%Z \/ k = 255%Z ->
  PatternGridFloat.channel 0 k NaN = Raise ValueError.
Proof.
  intros Hk. destruct (of_int_factor k Hk) as (k' & E & _ & _).
  unfold PatternGridFloat.channel. rewrite E, of_int_zero. reflexivity.
Qed.

Lemma channel_inf (k : Z) (s : bool) :
  k = 100%Z \/ k = 255%Z ->
  PatternGridFloat.channel 0 k (Inf s) = Raise OverflowError.
Proof.
  intros Hk. destruct (of_int_factor k Hk) as (k' & E & _ & Z').
  unfold PatternGridFloat.channel. rewrite E, of_int_zero.
  cbn [rbind mul]. rewrite Z'. reflexivity.
Qed.

Lemma channel_overflow (k : Z) (x : Q) :
  k = 100%Z \/ k = 255%Z ->
  overflow_threshold <= Qabs (inject_Z k * x) ->
  PatternGridFloat.channel 0 k (Finite x) = Raise OverflowError.
Proof.
  intros Hk HB. destruct (of_int_factor k Hk) as (k' & E & Ek & _).
  unfold PatternGridFloat.channel. rewrite E, of_int_zero.
  cbn [rbind mul]. rewrite of_Q_overflow by (rewrite Ek; exact HB).
  reflexivity.
Qed.

Lemma channel_returns (k : Z) (x : Q) :
  k = 100%Z \/ k = 255%Z ->
  Qabs (inject_Z k * x) < overflow_threshold ->
  exists c : Z, PatternGridFloat.channel 0 k (Finite x) = Ok c.
Proof.
  intros Hk HB. destruct (of_int_factor k Hk) as (k' & E & Ek & _).
  unfold PatternGridFloat.channel. rewrite E, of_int_zero.
  cbn [rbind mul].
  destruct (of_Q_finite (k' * x)) as (E1 & B1); [rewrite Ek; exact HB|].
  rewrite E1. cbn [add].
  destruct (of_Q_finite (0 + round_finite (k' * x))) as (E2 & _).
  { rewrite Qplus_0_l. exact B1. }
  rewrite E2. eexists. reflexivity.
Qed.

Lemma map_value_to_color_float_eq (value : float) :
  PatternGridFloat.map_value_to_color value =
  (r <- PatternGridFloat.channel 0 100 value ;;
   g <- PatternGridFloat.channel 0 100 value ;;
   b <- PatternGridFloat.channel 0 255 value ;;
   Ok (clamp r, clamp g, clamp b))%result.
Proof. reflexivity. Qed.

Lemma Qabs_scale_le (x : Q) :
  Qabs (inject_Z 100 * x) <= Qabs (inject_Z 255 * x).
Proof.
  rewrite !Qabs_Qmult.
  apply Qmult_le_compat_r; [vm_compute; discriminate | apply Qabs_nonneg].
Qed.

End FloatColor.

Section FloatColorClaims.

Import Binary64 PatternGrid.
Local Open Scope Q_scope.

(** C6, as the specification states it, fails at the float [1e308], a finite
    value outside the range from 0 to 1: the product [100 * value] overflows
    to an infinity, [int()] raises [OverflowError] at line 71, and no tuple
    is returned.  On [nan] the call raises [ValueError]. *)
Lemma map_value_to_color_raises_on_huge_value :
  (exists x : Q,
     of_Q (inject_Z (10 ^ 308)) = Finite x /\
     PatternGridFloat.map_value_to_color (Finite x) = Raise OverflowError /\
     forall color : Color,
       PatternGridFloat.map_value_to_color (Finite x) <> Ok color) /\
  PatternGridFloat.map_value_to_color NaN = Raise ValueError.
Proof.
  split.
  - exists (round_finite (inject_Z (10 ^ 308))).
    split; [vm_compute; reflexivity|].
    assert (E : PatternGridFloat.map_value_to_color
                  (Finite (round_finite (inject_Z (10 ^ 308))))
                = Raise OverflowError) by (vm_compute; reflexivity).
    split; [exact E|]. intros color. rewrite E. discriminate.
  - vm_compute. reflexivity.
Qed.

(** C6, amended: whenever [map_value_to_color] returns a tuple, each of its
    three channels is an integer between 0 and 255; it returns for exactly
    the finite values whose product with 255 stays below the overflow
    threshold of floats, inside the range from 0 to 1 or outside; for the
    other finite values and the infinities it raises [OverflowError], for
    [nan] it raises [ValueError]. *)
Theorem map_value_to_color_float_channels (value : float) :
  match PatternGridFloat.map_value_to_color value with
  | Ok color =>
    ((0 <= ch0 color <= 255)%Z /\ (0 <= ch1 color <= 255)%Z /\
     (0 <= ch2 color <= 255)%Z) /\
    exists x : Q, value = Finite x /\ Qabs (255 * x) < overflow_threshold
  | Raise e =>
    (value = NaN /\ e = ValueError) \/
    (e = OverflowError /\
     ((exists s : bool, value = Inf s) \/
      exists x : Q, value = Finite x /\ overflow_threshold <= Qabs (255 * x)))
  end.
Proof.
  rewrite map_value_to_color_float_eq. destruct value as [x|s|].
  - destruct (Qlt_le_dec (Qabs (inject_Z 255 * x)) overflow_threshold) as [Hlt|Hge].
    + assert (Hlt' : Qabs (inject_Z 100 * x) < overflow_threshold).
      { apply Qle_lt_trans with (Qabs (inject_Z 255 * x));
          [apply Qabs_scale_le | exact Hlt]. }
      destruct (channel_returns 100 x (or_introl eq_refl) Hlt') as (c1 & E1).
      destruct (channel_returns 255 x (or_intror eq_refl) Hlt) as (c3 & E3).
      rewrite E1, E3. cbn [rbind]. unfold ch0, ch1, ch2; cbn [fst snd].
      split; [repeat split; apply clamp_range|].
      exists x. split; [reflexivity | exact Hlt].
    + assert (Hraise : (r <- PatternGridFloat.channel 0 100 (Finite x) ;;
                        g <- PatternGridFloat.channel 0 100 (Finite x) ;;
                        b <- PatternGridFloat.channel 0 255 (Finite x) ;;
                        Ok (clamp r, clamp g, clamp b))%result
                       = Raise OverflowError).
      { destruct (Qlt_le_dec (Qabs (inject_Z 100 * x)) overflow_threshold)
          as [Hlt'|Hge'].
        - destruct (channel_returns 100 x (or_introl eq_refl) Hlt') as (c1 & E1).
          rewrite E1. cbn [rbind].
          rewrite (channel_overflow 255 x (or_intror eq_refl) Hge). reflexivity.
        - rewrite (channel_overflow 100 x (or_introl eq_refl) Hge'). reflexivity. }
      rewrite Hraise. right. split; [reflexivity|].
      right. exists x. split; [reflexivity | exact Hge].
  - rewrite (channel_inf 100 s (or_introl eq_refl)). cbn [rbind]. right.
    split; [reflexivity|]. left. exists s. reflexivity.
  - rewrite (channel_nan 100 (or_introl eq_refl)). cbn [rbind]. left.
    split; reflexivity.
Qed.

(** The colours of some floats, as Python computes them: rounding makes
    [100 * 0.6] the float 60 and [100 * 2.55] a float below 255. *)
Example map_value_to_color_float_values :
  PatternGridFloat.map_value_to_color (of_Q 0) = Ok (0, 0, 0)%Z /\
  PatternGridFloat.map_value_to_color (of_Q 1) = Ok (100, 100, 255)%Z /\
  PatternGridFloat.map_value_to_color (of_Q 0.6) = Ok (60, 60, 153)%Z /\
  PatternGridFloat.map_value_to_color (of_Q 2.55) = Ok (254, 254, 255)%Z /\
  PatternGridFloat.map_value_to_color (of_Q (-0.5)) = Ok (0, 0, 0)%Z /\
  PatternGridFloat.map_value_to_color (Finite (1 - pow2 (-53)))
  = Ok (99, 99, 254)%Z /\
  PatternGridFloat.map_value_to_color (Inf false) = Raise OverflowError.
Proof. repeat split; vm_compute; reflexivity. Qed.

End FloatColorClaims.

Section FloatMonotone.

Import Binary64.
Local Open Scope Q_scope.

(** The exponent found is not too large. *)
Lemma ilog2_lower (m : Q) : 0 < m -> pow2 (ilog2 m) <= m.
Proof.
  intros Hm. unfold ilog2.
  set (l := (Z.log2 (Qnum m) - Z.log2 (Z.pos (Qden m)))%Z).
  destruct (Qle_bool (pow2 l) m) eqn:E.
  - apply Qle_bool_iff, E.
  - destruct m as [a b]. cbn [Qnum Qden] in l.
    assert (Ha : (0 < a)%Z) by (unfold Qlt in Hm; simpl in Hm; lia).
    pose proof (Z.log2_spec a Ha) as [Hal _].
    pose proof (Z.log2_spec (Z.pos b) (Pos2Z.is_pos b)) as [_ Hbu].
    pose proof (Z.log2_nonneg a) as Hla.
    pose proof (Z.log2_nonneg (Z.pos b)) as Hlb.
    assert (H1 : pow2 (Z.log2 a) <= inject_Z a).
    { rewrite <- pow2Q_inject by lia. rewrite <- Zle_Qle. exact Hal. }
    assert (H2 : inject_Z (Z.pos b) <= pow2 (Z.log2 (Z.pos b) + 1)).
    { rewrite <- pow2Q_inject by lia. rewrite <- Zle_Qle.
      replace (Z.log2 (Z.pos b) + 1)%Z with (Z.succ (Z.log2 (Z.pos b))) by lia.
      lia. }
    assert (H3 : pow2 (Z.log2 a)
                 == pow2 (l - 1) * pow2 (Z.log2 (Z.pos b) + 1)).
    { rewrite <- pow2Q_add. unfold l. apply Qpower_comp; [reflexivity | lia]. }
    rewrite (Qmake_Qdiv a b).
    apply Qle_shift_div_l; [reflexivity|].
    apply Qle_trans with (pow2 (Z.log2 a)); [|exact H1].
    rewrite H3. apply Qmult_le_l; [apply pow2Q_pos | exact H2].
Qed.

Lemma ilog2_mono (x y : Q) : 0 < x -> x <= y -> (ilog2 x <= ilog2 y)%Z.
Proof.
  intros Hx Hxy.
  assert (Hy : 0 < y) by (apply Qlt_le_trans with x; assumption).
  destruct (Z.le_gt_cases (ilog2 x) (ilog2 y)) as [H|H]; [exact H|].
  exfalso. apply (Qlt_irrefl y).
  apply Qlt_le_trans with (pow2 (ilog2 y + 1)); [apply ilog2_upper, Hy|].
  apply Qle_trans with (pow2 (ilog2 x)); [apply pow2Q_le; lia|].
  apply Qle_trans with x; [apply ilog2_lower, Hx | exact Hxy].
Qed.

Lemma round_half_even_bounds (y : Q) :
  (Qfloor y <= round_half_even y <= Qfloor y + 1)%Z.
Proof.
  unfold round_half_even.
  destruct (Qcompare (y - inject_Z (Qfloor y)) (1 # 2));
    [destruct (Z.even (Qfloor y))| |]; lia.
Qed.

Lemma round_half_even_mono (y1 y2 : Q) :
  y1 <= y2 -> (round_half_even y1 <= round_half_even y2)%Z.
Proof.
  intros H. pose proof (Qfloor_resp_le y1 y2 H) as Hf.
  destruct (Z.eq_dec (Qfloor y1) (Qfloor y2)) as [E|E].
  - unfold round_half_even. rewrite E.
    destruct (Qcompare_spec (y1 - inject_Z (Qfloor y2)) (1 # 2)) as [E1|L1|G1];
      destruct (Qcompare_spec (y2 - inject_Z (Qfloor y2)) (1 # 2)) as [E2|L2|G2];
      try (destruct (Z.even (Qfloor y2))); try lia; exfalso; lra.
  - pose proof (round_half_even_bounds y1). pose proof (round_half_even_bounds y2).
    lia.
Qed.

Lemma round_half_even_int (k : Z) : round_half_even (inject_Z k) = k.
Proof.
  unfold round_half_even. rewrite Qfloor_Z.
  destruct (Qcompare_spec (inject_Z k - inject_Z k) (1 # 2)) as [E|L|G].
  - exfalso. lra.
  - reflexivity.
  - exfalso. lra.
Qed.

Lemma round_magnitude_eq (m : Q) :
  round_magnitude m =
  inject_Z (round_half_even (m / pow2 (exponent_of m - 52)))
  * pow2 (exponent_of m - 52).
Proof. reflexivity. Qed.

End FloatMonotone.

Section FloatMonotone2.

Import Binary64.
Local Open Scope Q_scope.

Lemma div_pow2_le (x y : Q) (e : Z) : x <= y -> x / pow2 e <= y / pow2 e.
Proof.
  intros H. unfold Qdiv. apply Qmult_le_compat_r; [exact H|].
  apply Qinv_le_0_compat, Qlt_le_weak, pow2Q_pos.
Qed.

Lemma round_magnitude_nonneg (m : Q) : 0 < m -> 0 <= round_magnitude m.
Proof.
  intros Hm. rewrite round_magnitude_eq.
  apply Qmult_le_0_compat; [|apply Qlt_le_weak, pow2Q_pos].
  change 0 with (inject_Z 0). rewrite <- Zle_Qle.
  apply round_half_even_nonneg.
  apply Qle_shift_div_l; [apply pow2Q_pos|]. rewrite Qmult_0_l.
  apply Qlt_le_weak, Hm.
Qed.

(** Rounding a magnitude is monotone, within a binade and across binades. *)
Lemma round_magnitude_mono (x y : Q) :
  0 < x -> x <= y -> round_magnitude x <= round_magnitude y.
Proof.
  intros Hx Hxy.
  assert (Hy : 0 < y) by (apply Qlt_le_trans with x; assumption).
  pose proof (ilog2_mono x y Hx Hxy) as Hlog.
  rewrite !round_magnitude_eq.
  destruct (Z.eq_dec (exponent_of x) (exponent_of y)) as [E|E].
  - rewrite E. apply Qmult_le_compat_r; [|apply Qlt_le_weak, pow2Q_pos].
    rewrite <- Zle_Qle. apply round_half_even_mono, div_pow2_le, Hxy.
  - assert (Hlt : (exponent_of x < exponent_of y)%Z)
      by (unfold exponent_of in *; lia).
    set (ex := exponent_of x) in *. set (ey := exponent_of y) in *.
    apply Qle_trans with (pow2 (ex + 1)).
    + assert (Hsplit : pow2 (ex + 1) == inject_Z (2 ^ 53) * pow2 (ex - 52)).
      { rewrite (pow2Q_inject 53) by lia. rewrite <- pow2Q_add.
        apply Qpower_comp; [reflexivity | lia]. }
      rewrite Hsplit.
      apply Qmult_le_compat_r; [|apply Qlt_le_weak, pow2Q_pos].
      rewrite <- Zle_Qle. rewrite <- (round_half_even_int (2 ^ 53)).
      apply round_half_even_mono.
      apply Qle_shift_div_r; [apply pow2Q_pos|]. rewrite <- Hsplit.
      apply Qlt_le_weak.
      apply Qlt_le_trans with (pow2 (ilog2 x + 1)); [apply ilog2_upper, Hx|].
      apply pow2Q_le. unfold ex, exponent_of in *. lia.
    + apply Qle_trans with (pow2 ey); [apply pow2Q_le; lia|].
      assert (Hsplit : pow2 ey == inject_Z (2 ^ 52) * pow2 (ey - 52)).
      { rewrite (pow2Q_inject 52) by lia. rewrite <- pow2Q_add.
        apply Qpower_comp; [reflexivity | lia]. }
      rewrite Hsplit at 1.
      apply Qmult_le_compat_r; [|apply Qlt_le_weak, pow2Q_pos].
      rewrite <- Zle_Qle. rewrite <- (round_half_even_int (2 ^ 52)) at 1.
      apply round_half_even_mono.
      apply Qle_shift_div_l; [apply pow2Q_pos|]. rewrite <- Hsplit.
      apply Qle_trans with (pow2 (ilog2 y)); [|apply ilog2_lower, Hy].
      apply pow2Q_le. unfold ex, ey, exponent_of in *. lia.
Qed.

(** Rounding to a double is monotone. *)
Lemma round_finite_mono (x y : Q) :
  x <= y -> round_finite x <= round_finite y.
Proof.
  intros H. unfold round_finite.
  destruct x as [a b], y as [c d]. cbn [Qnum].
  destruct a as [|a|a], c as [|c|c];
    try (exfalso; unfold Qle in H; simpl in H; lia).
  - apply Qle_refl.
  - apply round_magnitude_nonneg. reflexivity.
  - apply round_magnitude_mono; [reflexivity | exact H].
  - assert (H0 : 0 <= round_magnitude (- (Z.neg a # b)))
      by (apply round_magnitude_nonneg; reflexivity).
    lra.
  - assert (H0 : 0 <= round_magnitude (- (Z.neg a # b)))
      by (apply round_magnitude_nonneg; reflexivity).
    assert (H1 : 0 <= round_magnitude (Z.pos c # d))
      by (apply round_magnitude_nonneg; reflexivity).
    lra.
  - apply Qopp_le_compat.
    apply round_magnitude_mono; [reflexivity | apply Qopp_le_compat, H].
Qed.

(** Rounding does not depend on how the fraction is written. *)
Lemma round_finite_comp (x y : Q) : x == y -> round_finite x == round_finite y.
Proof.
  intros E. apply Qle_antisym; apply round_finite_mono; rewrite E; apply Qle_refl.
Qed.

End FloatMonotone2.

Section FloatColorValues.

Import Binary64 PatternGrid.
Local Open Scope Q_scope.

Lemma factor_double (k : Z) :
  k = 100%Z \/ k = 255%Z ->
  of_int (k - 0) = Ok (Finite (round_finite (inject_Z (k - 0)))) /\
  round_finite (inject_Z (k - 0)) == inject_Z k.
Proof. intros [-> | ->]; split; vm_compute; reflexivity. Qed.

Lemma channel_value (k : Z) (x : Q) :
  k = 100%Z \/ k = 255%Z ->
  Qabs (inject_Z k * x) < overflow_threshold ->
  PatternGridFloat.channel 0 k (Finite x)
  = Ok (PatternGridFloat.rounded_channel k x).
Proof.
  intros Hk HB. destruct (factor_double k Hk) as (E & Ek).
  unfold PatternGridFloat.channel, PatternGridFloat.rounded_channel.
  rewrite E, of_int_zero. cbn [rbind mul].
  destruct (of_Q_finite (round_finite (inject_Z (k - 0)) * x)) as (E1 & B1);
    [rewrite Ek; exact HB|].
  rewrite E1. cbn [add].
  destruct (of_Q_finite
              (0 + round_finite (round_finite (inject_Z (k - 0)) * x)))
    as (E2 & _).
  { rewrite Qplus_0_l. exact B1. }
  rewrite E2. reflexivity.
Qed.

Lemma rounded_channel_mono (k : Z) (x y : Q) :
  k = 100%Z \/ k = 255%Z -> x <= y ->
  (PatternGridFloat.rounded_channel k x
   <= PatternGridFloat.rounded_channel k y)%Z.
Proof.
  intros Hk H. destruct (factor_double k Hk) as (_ & Ek).
  unfold PatternGridFloat.rounded_channel.
  apply int_resp_le, round_finite_mono.
  apply Qplus_le_r, round_finite_mono.
  rewrite Ek. apply Qmult_le_l; [|exact H].
  destruct Hk as [-> | ->]; reflexivity.
Qed.

(** The colour of a finite value whose products do not overflow. *)
Lemma map_value_to_color_float_returns (x : Q) :
  Qabs (255 * x) < overflow_threshold ->
  PatternGridFloat.map_value_to_color (Finite x)
  = Ok (clamp (PatternGridFloat.rounded_channel 100 x),
        clamp (PatternGridFloat.rounded_channel 100 x),
        clamp (PatternGridFloat.rounded_channel 255 x)).
Proof.
  intros HB.
  assert (HB' : Qabs (inject_Z 100 * x) < overflow_threshold).
  { apply Qle_lt_trans with (Qabs (inject_Z 255 * x));
      [apply Qabs_scale_le | exact HB]. }
  rewrite map_value_to_color_float_eq.
  rewrite (channel_value 100 x (or_introl eq_refl) HB').
  rewrite (channel_value 255 x (or_intror eq_refl) HB). reflexivity.
Qed.

Lemma map_value_to_color_float_raises (x : Q) :
  overflow_threshold <= Qabs (255 * x) ->
  PatternGridFloat.map_value_to_color (Finite x) = Raise OverflowError.
Proof.
  intros Hge. rewrite map_value_to_color_float_eq.
  destruct (Qlt_le_dec (Qabs (inject_Z 100 * x)) overflow_threshold)
    as [Hlt'|Hge'].
  - rewrite (channel_value 100 x (or_introl eq_refl) Hlt'). cbn [rbind].
    rewrite (channel_overflow 255 x (or_intror eq_refl) Hge). reflexivity.
  - rewrite (channel_overflow 100 x (or_introl eq_refl) Hge'). reflexivity.
Qed.

(** A returned colour comes from a value whose products do not overflow. *)
Lemma map_value_to_color_float_inv (x : Q) (color : Color) :
  PatternGridFloat.map_value_to_color (Finite x) = Ok color ->
  Qabs (255 * x) < overflow_threshold /\
  color = (clamp (PatternGridFloat.rounded_channel 100 x),
           clamp (PatternGridFloat.rounded_channel 100 x),
           clamp (PatternGridFloat.rounded_channel 255 x)).
Proof.
  intros E.
  destruct (Qlt_le_dec (Qabs (255 * x)) overflow_threshold) as [Hlt|Hge].
  - split; [exact Hlt|].
    rewrite (map_value_to_color_float_returns x Hlt) in E.
    injection E as <-. reflexivity.
  - rewrite (map_value_to_color_float_raises x Hge) in E. discriminate.
Qed.

End FloatColorValues.

Section FloatColorExtras.

Import Binary64 PatternGrid.
Local Open Scope Q_scope.

(** X9: on floats [map_value_to_color] is monotone wherever it returns, below
    0 and above 1 as well as in between: for two finite values [x <= y] that
    both get a colour, no channel of the colour of [x] exceeds the same
    channel of the colour of [y].  (Rounding the products, cutting their
    fractions off and clamping are all monotone.) *)
Theorem map_value_to_color_float_monotone (x y : Q) (c1 c2 : Color) :
  x <= y ->
  PatternGridFloat.map_value_to_color (Finite x) = Ok c1 ->
  PatternGridFloat.map_value_to_color (Finite y) = Ok c2 ->
  (ch0 c1 <= ch0 c2)%Z /\ (ch1 c1 <= ch1 c2)%Z /\ (ch2 c1 <= ch2 c2)%Z.
Proof.
  intros H E1 E2.
  apply map_value_to_color_float_inv in E1. destruct E1 as (_ & ->).
  apply map_value_to_color_float_inv in E2. destruct E2 as (_ & ->).
  unfold ch0, ch1, ch2; cbn [fst snd].
  repeat split; apply clamp_resp_le, rounded_channel_mono;
    auto using or_introl, or_intror.
Qed.

Lemma map_value_to_color_float_monotone_witness :
  - (1 # 2) <= 3 /\
  PatternGridFloat.map_value_to_color (Finite (- (1 # 2))) = Ok (0, 0, 0)%Z /\
  PatternGridFloat.map_value_to_color (Finite 3) = Ok (255, 255, 255)%Z /\
  (ch0 (0, 0, 0) <= ch0 (255, 255, 255))%Z /\
  (ch1 (0, 0, 0) <= ch1 (255, 255, 255))%Z /\
  (ch2 (0, 0, 0) <= ch2 (255, 255, 255))%Z.
Proof.
  assert (H : - (1 # 2) <= 3) by (unfold Qle; simpl; lia).
  assert (E1 : PatternGridFloat.map_value_to_color (Finite (- (1 # 2)))
               = Ok (0, 0, 0)%Z) by (vm_compute; reflexivity).
  assert (E2 : PatternGridFloat.map_value_to_color (Finite 3)
               = Ok (255, 255, 255)%Z) by (vm_compute; reflexivity).
  split; [exact H|]. split; [exact E1|]. split; [exact E2|].
  exact (map_value_to_color_float_monotone (- (1 # 2)) 3 _ _ H E1 E2).
Defined.

(** X10: on floats the value itself is never brought back between 0 and 1,
    only the channels are clamped.  Where a colour is returned: a value of 0
    or less gives the start colour (0, 0, 0); a value of 1 or more gives a
    blue of 255 with red and green equal and at least 100, not the end
    colour's 100; from 2.56 on the colour is (255, 255, 255). *)
Theorem map_value_to_color_float_out_of_range :
  (forall (x : Q) (color : Color),
     x <= 0 ->
     PatternGridFloat.map_value_to_color (Finite x) = Ok color ->
     color = (0, 0, 0)%Z) /\
  (forall (x : Q) (color : Color),
     1 <= x ->
     PatternGridFloat.map_value_to_color (Finite x) = Ok color ->
     ch2 color = 255%Z /\ (100 <= ch0 color)%Z /\ ch1 color = ch0 color) /\
  (forall (x : Q) (color : Color),
     2.56 <= x ->
     PatternGridFloat.map_value_to_color (Finite x) = Ok color ->
     color = (255, 255, 255)%Z).
Proof.
  assert (Z100 : PatternGridFloat.rounded_channel 100 0 = 0%Z)
    by (vm_compute; reflexivity).
  assert (Z255 : PatternGridFloat.rounded_channel 255 0 = 0%Z)
    by (vm_compute; reflexivity).
  assert (O100 : PatternGridFloat.rounded_channel 100 1 = 100%Z)
    by (vm_compute; reflexivity).
  assert (O255 : PatternGridFloat.rounded_channel 255 1 = 255%Z)
    by (vm_compute; reflexivity).
  assert (W100 : PatternGridFloat.rounded_channel 100 2.56 = 256%Z)
    by (vm_compute; reflexivity).
  assert (W255 : (255 <= PatternGridFloat.rounded_channel 255 2.56)%Z)
    by (vm_compute; discriminate).
  split; [|split]; intros x color H E;
    apply map_value_to_color_float_inv in E; destruct E as (_ & ->).
  - pose proof (rounded_channel_mono 100 x 0 (or_introl eq_refl) H).
    pose proof (rounded_channel_mono 255 x 0 (or_intror eq_refl) H).
    unfold clamp. f_equal; [f_equal|]; lia.
  - pose proof (rounded_channel_mono 100 1 x (or_introl eq_refl) H).
    pose proof (rounded_channel_mono 255 1 x (or_intror eq_refl) H).
    unfold ch0, ch1, ch2, clamp; cbn [fst snd]. repeat split; lia.
  - pose proof (rounded_channel_mono 100 2.56 x (or_introl eq_refl) H).
    pose proof (rounded_channel_mono 255 2.56 x (or_intror eq_refl) H).
    unfold clamp. f_equal; [f_equal|]; lia.
Qed.

Lemma map_value_to_color_float_out_of_range_witness :
  (-1 <= 0 /\
   PatternGridFloat.map_value_to_color (Finite (-1)) = Ok (0, 0, 0)%Z) /\
  (1 <= 3 # 2 /\
   PatternGridFloat.map_value_to_color (Finite (3 # 2)) = Ok (150, 150, 255)%Z /\
   ch2 (150, 150, 255)%Z = 255%Z /\ (100 <= ch0 (150, 150, 255))%Z /\
   ch1 (150, 150, 255)%Z = ch0 (150, 150, 255)%Z) /\
  (2.56 <= 3 /\
   PatternGridFloat.map_value_to_color (Finite 3) = Ok (255, 255, 255)%Z).
Proof.
  destruct map_value_to_color_float_out_of_range as (Hlow & Hhigh & Hwhite).
  assert (L0 : -1 <= 0) by (unfold Qle; simpl; lia).
  assert (L1 : 1 <= 3 # 2) by (unfold Qle; simpl; lia).
  assert (L2 : 2.56 <= 3) by (unfold Qle; simpl; lia).
  assert (E0 : PatternGridFloat.map_value_to_color (Finite (-1))
               = Ok (0, 0, 0)%Z) by (vm_compute; reflexivity).
  assert (E1 : PatternGridFloat.map_value_to_color (Finite (3 # 2))
               = Ok (150, 150, 255)%Z) by (vm_compute; reflexivity).
  assert (E2 : PatternGridFloat.map_value_to_color (Finite 3)
               = Ok (255, 255, 255)%Z) by (vm_compute; reflexivity).
  pose proof (Hlow (-1) _ L0 E0) as _.
  pose proof (Hwhite 3 _ L2 E2) as _.
  split; [split; [exact L0 | exact E0]|].
  split; [split; [exact L1 | split; [exact E1 | exact (Hhigh (3 # 2) _ L1 E1)]]|].
  split; [exact L2 | exact E2].
Defined.

(** X11: on floats, for every value from 0 to the largest float below 1
    (which is [1 - 2^-53]) a colour is returned whose red and green are at
    most 99 and whose blue is at most 254: [int] cuts the fraction off, and
    the end colour (100, 100, 255) is met at the value 1 only. *)
Theorem map_value_to_color_float_below_one (x : Q) :
  0 <= x -> x <= 1 - pow2 (-53) ->
  exists color : Color,
    PatternGridFloat.map_value_to_color (Finite x) = Ok color /\
    (0 <= ch0 color <= 99)%Z /\ (0 <= ch1 color <= 99)%Z /\
    (0 <= ch2 color <= 254)%Z.
Proof.
  intros H0 H1.
  assert (Hp : 0 < pow2 (-53)) by apply pow2Q_pos.
  assert (HB : Qabs (255 * x) < overflow_threshold).
  { rewrite Qabs_pos by lra.
    apply Qle_lt_trans with 255; [lra | vm_compute; reflexivity]. }
  rewrite (map_value_to_color_float_returns x HB). eexists.
  split; [reflexivity|].
  assert (T100 : PatternGridFloat.rounded_channel 100 (1 - pow2 (-53)) = 99%Z)
    by (vm_compute; reflexivity).
  assert (T255 : PatternGridFloat.rounded_channel 255 (1 - pow2 (-53)) = 254%Z)
    by (vm_compute; reflexivity).
  assert (Z100 : PatternGridFloat.rounded_channel 100 0 = 0%Z)
    by (vm_compute; reflexivity).
  assert (Z255 : PatternGridFloat.rounded_channel 255 0 = 0%Z)
    by (vm_compute; reflexivity).
  pose proof (rounded_channel_mono 100 x _ (or_introl eq_refl) H1).
  pose proof (rounded_channel_mono 255 x _ (or_intror eq_refl) H1).
  pose proof (rounded_channel_mono 100 0 x (or_introl eq_refl) H0).
  pose proof (rounded_channel_mono 255 0 x (or_intror eq_refl) H0).
  unfold ch0, ch1, ch2, clamp; cbn [fst snd]. repeat split; lia.
Qed.

Lemma map_value_to_color_float_below_one_witness :
  0 <= 1 - pow2 (-53) /\ 1 - pow2 (-53) <= 1 - pow2 (-53) /\
  exists color : Color,
    PatternGridFloat.map_value_to_color (Finite (1 - pow2 (-53))) = Ok color /\
    (0 <= ch0 color <= 99)%Z /\ (0 <= ch1 color <= 99)%Z /\
    (0 <= ch2 color <= 254)%Z.
Proof.
  assert (H0 : 0 <= 1 - pow2 (-53)) by (vm_compute; discriminate).
  assert (H1 : 1 - pow2 (-53) <= 1 - pow2 (-53)) by apply Qle_refl.
  split; [exact H0|]. split; [exact H1|].
  exact (map_value_to_color_float_below_one (1 - pow2 (-53)) H0 H1).
Defined.

End FloatColorExtras.
